(** * AMI cleaner: the selection predicate and the purge action

    A shallow embedding of [pkg/amiclean/ami_cleaner.go].

    - A Go pointer member of an SDK struct ([*string], [*bool],
      [*ec2.EbsBlockDevice]) is an [option]: [None] is [nil], and a
      dereference of [nil] is the run-time panic [Panic].  The receiver, the
      [image] argument, the configured [Tag], the logger, the client and the
      elements of slices are allocated by the caller or by the SDK and are
      modelled by their targets.
    - The EC2 client is a record of handlers over a state [W] of the account;
      every call of a handler and every call of the logger is appended to a
      trace, so that what a function asks of the cloud can be stated.
    - [time.Parse] and [Time.String] belong to Go's library and are taken as
      parameters. *)

From Stdlib Require Import String Ascii List Bool ZArith Lia DecimalString.
Import ListNotations.
Open Scope string_scope.

(** ** Go values *)

(** Go's [error] interface: [None] is the nil error. *)
Definition error : Type := option string.

(** The result of evaluating Go code that may dereference a nil pointer. *)
Inductive Result (A : Type) : Type :=
| Ok (a : A)
| Panic.
Arguments Ok {A} a.
Arguments Panic {A}.

Module Res.
Definition bind {A B} (r : Result A) (k : A -> Result B) : Result B :=
  match r with
  | Ok a => k a
  | Panic => Panic
  end.

Definition map {A B} (f : A -> B) (r : Result A) : Result B :=
  bind r (fun a => Ok (f a)).

(** [*p] *)
Definition deref {A} (p : option A) : Result A :=
  match p with
  | Some a => Ok a
  | None => Panic
  end.
End Res.

(** [strings.HasPrefix(s, prefix)] *)
Definition HasPrefix (s prefix : string) : bool := String.prefix prefix s.

(** ** time *)

(** A [time.Time] is an instant, counted in nanoseconds from the zero Time
    (January 1, year 1, 00:00:00 UTC). *)
Definition Time : Type := Z.

Definition zeroTime : Time := 0%Z.

(** [t.After(u)] and [t.Before(u)] *)
Definition After (t u : Time) : bool := (u <? t)%Z.
Definition Before (t u : Time) : bool := (t <? u)%Z.

(** What the package uses of Go's [time] library. *)
Record TimeLib : Type := {
  time_Parse : string -> string -> Time * error;
  Time_String : Time -> string
}.

(** Every error return of [time.Parse] is [Time{}, err]. *)
Definition Parse_zero_on_error (tl : TimeLib) : Prop :=
  forall layout value t e,
    time_Parse tl layout value = (t, Some e) -> t = zeroTime.

(** RFC8601 is the date/time format used by AWS. *)
Definition RFC8601 : string := "2006-01-02T15:04:05.000Z".

(** ** The EC2 structures the package reads and builds *)

Module Tag.
Record t : Type := mk { Key : option string; Value : option string }.
End Tag.

Module EbsBlockDevice.
Record t : Type := mk { SnapshotId : option string }.
End EbsBlockDevice.

Module BlockDeviceMapping.
Record t : Type := mk {
  DeviceName : option string;
  VirtualName : option string;
  Ebs : option EbsBlockDevice.t
}.
End BlockDeviceMapping.

Module Image.
Record t : Type := mk {
  ImageId : option string;
  Name : option string;
  CreationDate : option string;
  RootDeviceType : option string;
  Tags : list Tag.t;
  BlockDeviceMappings : list BlockDeviceMapping.t
}.
End Image.

Module Filter.
Record t : Type := mk { Name : option string; Values : list (option string) }.
End Filter.

Module DescribeImagesInput.
Record t : Type := mk {
  ExecutableUsers : list (option string);
  Filters : list Filter.t;
  ImageIds : list (option string);
  Owners : list (option string)
}.
End DescribeImagesInput.

Module DescribeImagesOutput.
Record t : Type := mk { Images : list Image.t }.
End DescribeImagesOutput.

Module DescribeInstancesInput.
Record t : Type := mk {
  Filters : list Filter.t;
  InstanceIds : list (option string)
}.
End DescribeInstancesInput.

Module Instance.
Record t : Type := mk { InstanceId : option string; ImageId : option string }.
End Instance.

Module Reservation.
Record t : Type := mk { Instances : list Instance.t }.
End Reservation.

Module DescribeInstancesOutput.
(** [Reservations] is tested against [nil]; a Go slice is [nil] ([None])
    or holds elements, possibly none ([Some l]). *)
Record t : Type := mk { Reservations : option (list Reservation.t) }.
End DescribeInstancesOutput.

Module DeregisterImageInput.
Record t : Type := mk { DryRun : option bool; ImageId : option string }.
End DeregisterImageInput.

Module DeleteSnapshotInput.
Record t : Type := mk { DryRun : option bool; SnapshotId : option string }.
End DeleteSnapshotInput.

(** [aws.String] and [aws.Bool] return a pointer to their argument. *)
Module aws.
Definition String (s : string) : option string := Some s.
Definition Bool (b : bool) : option bool := Some b.
End aws.

(** ** The logger *)

Inductive Level : Type := DebugLevel | InfoLevel | ErrorLevel.

Module zap.
Inductive Field : Type :=
| String (key val : string)
| Error (err : string).
End zap.

(** ** The client and the trace *)

(** What a function asked of its collaborators, in the order of the calls. *)
Inductive Event : Type :=
| Log (lvl : Level) (msg : string) (fields : list zap.Field)
| CallDescribeImages (input : DescribeImagesInput.t)
| CallDescribeInstances (input : DescribeInstancesInput.t)
| CallDeregisterImage (input : DeregisterImageInput.t)
| CallDeleteSnapshot (input : DeleteSnapshotInput.t).

(** The events that are calls of the cloud API. *)
Definition is_api_call (e : Event) : bool :=
  match e with Log _ _ _ => false | _ => true end.

Section Client.

(** The state of the account behind the client. *)
Variable W : Type.

(** An operation of the SDK returns an output pointer and an error. *)
Definition Op (I O : Type) : Type := I -> W -> (option O * error) * W.

Record EC2 : Type := {
  ec2_DescribeImages : Op DescribeImagesInput.t DescribeImagesOutput.t;
  ec2_DescribeInstances : Op DescribeInstancesInput.t DescribeInstancesOutput.t;
  ec2_DeregisterImage : Op DeregisterImageInput.t unit;
  ec2_DeleteSnapshot : Op DeleteSnapshotInput.t unit
}.

Record World : Type := mkWorld { cloud : W; trace : list Event }.

(** Go code that calls the client and the logger. *)
Definition M (A : Type) : Type := World -> Result A * World.

Definition ret {A} (a : A) : M A := fun w => (Ok a, w).

Definition bind {A B} (m : M A) (k : A -> M B) : M B :=
  fun w =>
    match m w with
    | (Ok a, w') => k a w'
    | (Panic, w') => (Panic, w')
    end.

Definition lift {A} (r : Result A) : M A := fun w => (r, w).

Definition deref {A} (p : option A) : M A := lift (Res.deref p).

Definition emit (e : Event) : M unit :=
  fun w => (Ok tt, mkWorld (cloud w) (trace w ++ [e])).

Definition call {I O} (ev : I -> Event) (op : Op I O) (input : I)
  : M (option O * error) :=
  fun w =>
    let '(r, c) := op input (cloud w) in
    (Ok r, mkWorld c (trace w ++ [ev input])).

End Client.

Arguments mkWorld {W} cloud trace.
Arguments cloud {W} w.
Arguments trace {W} w.
Arguments ret {W A} a.
Arguments bind {W A B} m k.
Arguments lift {W A} r.
Arguments deref {W A} p.
Arguments emit {W} e.
Arguments call {W I O} ev op input.
Arguments ec2_DescribeImages {W} e.
Arguments ec2_DescribeInstances {W} e.
Arguments ec2_DeregisterImage {W} e.
Arguments ec2_DeleteSnapshot {W} e.

Declare Scope go_scope.
Delimit Scope go_scope with go.
Notation "x <- m ;; k" := (bind m (fun x => k))
  (at level 100, m at next level, right associativity) : go_scope.
Notation "' p <- m ;; k" := (bind m (fun x => let 'p := x in k))
  (at level 100, p pattern, m at next level, right associativity) : go_scope.
Notation "m ;; k" := (bind m (fun _ => k))
  (at level 100, right associativity) : go_scope.
Notation "x <-r m ;; k" := (Res.bind m (fun x => k))
  (at level 100, m at next level, right associativity) : go_scope.

(** ** Package amiclean *)

Module amiclean.

Open Scope go_scope.

(** AMIClean defines parameters for cleaning up AMIs based on a tag and
    expiration date.  The [Logger] member is the [Log] events of the trace. *)
Record AMIClean (W : Type) : Type := {
  NamePrefix : string;
  Delete : bool;
  Tag : Tag.t;
  Invert : bool;
  Unused : bool;
  ExpirationDate : Time;
  EC2Client : EC2 W
}.
Arguments NamePrefix {W} a.
Arguments Delete {W} a.
Arguments Tag {W} a.
Arguments Invert {W} a.
Arguments Unused {W} a.
Arguments ExpirationDate {W} a.
Arguments EC2Client {W} a.

Section Package.

Variable W : Type.
Variable tl : TimeLib.

(** The methods of [a.Logger]. *)
Definition Logger_Debug (msg : string) (fields : list zap.Field) : M W unit :=
  emit (Log DebugLevel msg fields).
Definition Logger_Info (msg : string) (fields : list zap.Field) : M W unit :=
  emit (Log InfoLevel msg fields).
Definition Logger_Error (msg : string) (fields : list zap.Field) : M W unit :=
  emit (Log ErrorLevel msg fields).

(** The methods of [a.EC2Client]. *)
Definition DescribeImages (c : EC2 W) :=
  call CallDescribeImages (ec2_DescribeImages c).
Definition DescribeInstances (c : EC2 W) :=
  call CallDescribeInstances (ec2_DescribeInstances c).
Definition DeregisterImage (c : EC2 W) :=
  call CallDeregisterImage (ec2_DeregisterImage c).
Definition DeleteSnapshot (c : EC2 W) :=
  call CallDeleteSnapshot (ec2_DeleteSnapshot c).

(** GetImages gets us all the private AMIs on our account. *)
Definition GetImages (a : AMIClean W)
  : M W (option DescribeImagesOutput.t * error) :=
  let input :=
    {| DescribeImagesInput.ExecutableUsers := [];
       DescribeImagesInput.Filters := [];
       DescribeImagesInput.ImageIds := [];
       DescribeImagesInput.Owners := [aws.String "self"] |} in
  '(output, err) <- DescribeImages (EC2Client a) input ;;
  match err with
  | Some _ => ret (None, err)
  | None => ret (output, None)
  end.

(** The body of the [range image.Tags] loop of [matchTags], followed by the
    return after the loop. *)
Fixpoint matchTags_range (tags : list Tag.t) (tag : Tag.t)
  : Result (bool * Tag.t) :=
  match tags with
  | imageTag :: rest =>
      k <-r Res.deref (Tag.Key tag) ;;
      ik <-r Res.deref (Tag.Key imageTag) ;;
      if String.eqb k ik then
        v <-r Res.deref (Tag.Value tag) ;;
        iv <-r Res.deref (Tag.Value imageTag) ;;
        if String.eqb v iv then Ok (true, imageTag)
        else Ok (false, imageTag)
      else matchTags_range rest tag
  | [] =>
      Ok (false,
          {| Tag.Key := Tag.Key tag; Tag.Value := aws.String "not found" |})
  end.

(** MatchTags lets us see if an arbitrary tag is set to the appropriate
    value within an image. *)
Definition matchTags (image : Image.t) (tag : Tag.t) : Result (bool * Tag.t) :=
  matchTags_range (Image.Tags image) tag.

(** The input of the instance query of [CheckUnused]. *)
Definition findInstancesInput (image : Image.t) : DescribeInstancesInput.t :=
  let amiFilter :=
    {| Filter.Name := aws.String "image-id";
       Filter.Values := [Image.ImageId image] |} in
  {| DescribeInstancesInput.Filters := [amiFilter];
     DescribeInstancesInput.InstanceIds := [] |}.

(** CheckUnused takes an image and then checks to see if it is in use as an
    instance. *)
Definition CheckUnused (a : AMIClean W) (image : Image.t) : M W (bool * error) :=
  '(output, err) <- DescribeInstances (EC2Client a) (findInstancesInput image) ;;
  match err with
  | Some _ => ret (false, err)
  | None =>
      out <- deref output ;;
      match DescribeInstancesOutput.Reservations out with
      | Some _ => ret (false, None)
      | None => ret (true, None)
      end
  end.

(** CheckImage compares a given image to the purge criteria and returns
    true if the image matches the criteria. *)
Definition CheckImage (a : AMIClean W) (image : Image.t) : M W bool :=
  name <- deref (Image.Name image) ;;
  if negb (HasPrefix name (NamePrefix a)) then ret false
  else
    creationDate <- deref (Image.CreationDate image) ;;
    let '(imageCreationTime, _) := time_Parse tl RFC8601 creationDate in
    if After imageCreationTime (ExpirationDate a) then ret false
    else
      let tagCheck : M W bool :=
        '(match_, matchedTag) <- lift (matchTags image (Tag a)) ;;
        if negb (Bool.eqb (Invert a) match_) then
          id <- deref (Image.ImageId image) ;;
          name <- deref (Image.Name image) ;;
          key <- deref (Tag.Key matchedTag) ;;
          value <- deref (Tag.Value matchedTag) ;;
          Logger_Debug "ami matched selection criteria"
            [zap.String "ami-id" id;
             zap.String "ami-name" name;
             zap.String "ami-tag-key" key;
             zap.String "ami-tag-value" value;
             zap.String "ami-creation-date" (Time_String tl imageCreationTime)] ;;
          ret true
        else ret false in
      if Unused a then
        '(unused, err) <- CheckUnused a image ;;
        match err with
        | Some e =>
            id <- deref (Image.ImageId image) ;;
            Logger_Error "Could not check for image in use"
              [zap.String "ami-id" id; zap.Error e] ;;
            ret false
        | None =>
            if negb unused then ret false else tagCheck
        end
      else tagCheck.

(** The first loop of [PurgeImage]: the snapshot of every block device. *)
Fixpoint snapshotIdsOf (mappings : list BlockDeviceMapping.t)
  : Result (list string) :=
  match mappings with
  | [] => Ok []
  | blockDevice :: rest =>
      ebs <-r Res.deref (BlockDeviceMapping.Ebs blockDevice) ;;
      snapshotID <-r Res.deref (EbsBlockDevice.SnapshotId ebs) ;;
      ids <-r snapshotIdsOf rest ;;
      Ok (snapshotID :: ids)
  end.

(** The second loop of [PurgeImage]; [after] is the code that follows the
    loop, skipped by the [return] inside it. *)
Fixpoint deleteSnapshots (a : AMIClean W) (snapshotIds : list string)
    (after : M W (string * error)) : M W (string * error) :=
  match snapshotIds with
  | [] => after
  | snapshot :: rest =>
      let deleteInput :=
        {| DeleteSnapshotInput.DryRun := aws.Bool (negb (Delete a));
           DeleteSnapshotInput.SnapshotId := aws.String snapshot |} in
      if Delete a then
        id <- deref (DeleteSnapshotInput.SnapshotId deleteInput) ;;
        Logger_Info "deleting snapshot" [zap.String "snapshot-id" id] ;;
        '(_, err) <- DeleteSnapshot (EC2Client a) deleteInput ;;
        match err with
        | Some _ => ret ("Failed to delete snapshot", err)
        | None => deleteSnapshots a rest after
        end
      else
        id <- deref (DeleteSnapshotInput.SnapshotId deleteInput) ;;
        Logger_Info "would delete snapshot" [zap.String "snapshot-id" id] ;;
        deleteSnapshots a rest after
  end.

(** PurgeImage operates on a single image, deregistering the image and
    deleting any associated snapshots. *)
Definition PurgeImage (a : AMIClean W) (image : Image.t) : M W (string * error) :=
  let finish : M W (string * error) :=
    id <- deref (Image.ImageId image) ;;
    ret (id, None) in
  rootDeviceType <- deref (Image.RootDeviceType image) ;;
  if negb (String.eqb rootDeviceType "ebs") then
    id <- deref (Image.ImageId image) ;;
    Logger_Info "image root device not EBS; will not purge"
      [zap.String "ami-id" id] ;;
    finish
  else
    snapshotIds <- lift (snapshotIdsOf (Image.BlockDeviceMappings image)) ;;
    id <- deref (Image.ImageId image) ;;
    let deregisterInput :=
      {| DeregisterImageInput.DryRun := aws.Bool (negb (Delete a));
         DeregisterImageInput.ImageId := aws.String id |} in
    if Delete a then
      id <- deref (Image.ImageId image) ;;
      Logger_Info "deregistering ami" [zap.String "ami-id" id] ;;
      '(_, err) <- DeregisterImage (EC2Client a) deregisterInput ;;
      match err with
      | Some _ => ret ("Failed to deregister image", err)
      | None => deleteSnapshots a snapshotIds finish
      end
    else
      id <- deref (Image.ImageId image) ;;
      Logger_Info "would deregister ami" [zap.String "ami-id" id] ;;
      deleteSnapshots a snapshotIds finish.

End Package.

Arguments GetImages {W} a.
Arguments CheckUnused {W} a image.
Arguments CheckImage {W} tl a image.
Arguments deleteSnapshots {W} a snapshotIds after.
Arguments PurgeImage {W} a image.
Arguments DescribeImages {W} c.
Arguments DescribeInstances {W} c.
Arguments DeregisterImage {W} c.
Arguments DeleteSnapshot {W} c.

End amiclean.

(** ** A model account and a model time library

    An executable client over an account that holds images, running instances
    and snapshots, and a parser for the one layout the package uses.  They
    stand for the collaborators when the package is run on concrete data. *)

Module Account.

Record t : Type := mk {
  amis : list Image.t;
  running : list Instance.t;
  snapshots : list string
}.

Definition opt_eqb (x y : option string) : bool :=
  match x, y with
  | Some a, Some b => String.eqb a b
  | None, None => true
  | _, _ => false
  end.

Definition mem (x : option string) (l : list (option string)) : bool :=
  existsb (opt_eqb x) l.

(** The values of the filters on ["image-id"]. *)
Definition wantedImageIds (input : DescribeInstancesInput.t)
  : list (option string) :=
  flat_map
    (fun f => if opt_eqb (Filter.Name f) (Some "image-id")
              then Filter.Values f else [])
    (DescribeInstancesInput.Filters input).

Definition describeImages : Op t DescribeImagesInput.t DescribeImagesOutput.t :=
  fun _ acc => ((Some (DescribeImagesOutput.mk (amis acc)), None), acc).

(** As the SDK does, the reservations stay nil when the answer lists none. *)
Definition describeInstances
  : Op t DescribeInstancesInput.t DescribeInstancesOutput.t :=
  fun input acc =>
    let found :=
      filter (fun i => mem (Instance.ImageId i) (wantedImageIds input))
             (running acc) in
    let reservations :=
      match found with
      | [] => None
      | _ => Some [Reservation.mk found]
      end in
    ((Some (DescribeInstancesOutput.mk reservations), None), acc).

Definition deregisterImage : Op t DeregisterImageInput.t unit :=
  fun input acc =>
    match DeregisterImageInput.DryRun input with
    | Some true => ((Some tt, Some "DryRunOperation"), acc)
    | _ =>
        let id := DeregisterImageInput.ImageId input in
        if existsb (fun i => opt_eqb (Image.ImageId i) id) (amis acc) then
          ((Some tt, None),
           mk (filter (fun i => negb (opt_eqb (Image.ImageId i) id)) (amis acc))
              (running acc) (snapshots acc))
        else ((Some tt, Some "InvalidAMIID.NotFound"), acc)
    end.

Definition deleteSnapshot : Op t DeleteSnapshotInput.t unit :=
  fun input acc =>
    match DeleteSnapshotInput.DryRun input with
    | Some true => ((Some tt, Some "DryRunOperation"), acc)
    | _ =>
        let id := DeleteSnapshotInput.SnapshotId input in
        if mem id (List.map Some (snapshots acc)) then
          ((Some tt, None),
           mk (amis acc) (running acc)
              (filter (fun s => negb (opt_eqb (Some s) id)) (snapshots acc)))
        else ((Some tt, Some "InvalidSnapshot.NotFound"), acc)
    end.

Definition client : EC2 t := {|
  ec2_DescribeImages := describeImages;
  ec2_DescribeInstances := describeInstances;
  ec2_DeregisterImage := deregisterImage;
  ec2_DeleteSnapshot := deleteSnapshot
|}.

(** A client whose every call fails. *)
Definition failing : EC2 t := {|
  ec2_DescribeImages := fun _ acc => ((None, Some "RequestError"), acc);
  ec2_DescribeInstances := fun _ acc => ((None, Some "RequestError"), acc);
  ec2_DeregisterImage := fun _ acc => ((None, Some "RequestError"), acc);
  ec2_DeleteSnapshot := fun _ acc => ((None, Some "RequestError"), acc)
|}.

End Account.

Module Clock.

Definition digit (c : Ascii.ascii) : option Z :=
  let n := Ascii.nat_of_ascii c in
  if andb (48 <=? n)%nat (n <=? 57)%nat then Some (Z.of_nat (n - 48)) else None.

(** Reads [n] decimal digits. *)
Fixpoint number (n : nat) (acc : Z) (s : string) : option (Z * string) :=
  match n with
  | O => Some (acc, s)
  | S n' =>
      match s with
      | String c s' =>
          match digit c with
          | Some d => number n' (10 * acc + d)%Z s'
          | None => None
          end
      | EmptyString => None
      end
  end.

(** Reads the character [c]. *)
Definition lit (c : Ascii.ascii) (s : string) : option string :=
  match s with
  | String c' s' => if Ascii.eqb c c' then Some s' else None
  | EmptyString => None
  end.

Definition leap (y : Z) : bool :=
  andb (y mod 4 =? 0)%Z (orb (negb (y mod 100 =? 0)%Z) (y mod 400 =? 0)%Z).

Definition daysIn (y m : Z) : Z :=
  if (m =? 2)%Z then (if leap y then 29 else 28)%Z
  else if orb (orb (m =? 4)%Z (m =? 6)%Z) (orb (m =? 9)%Z (m =? 11)%Z) then 30%Z
  else 31%Z.

(** Days from January 1, year 1 to the given day of the Gregorian calendar. *)
Definition daysSinceZero (y m d : Z) : Z :=
  let y' := (if (m <=? 2)%Z then y - 1 else y)%Z in
  let era := (y' / 400)%Z in
  let yoe := (y' - era * 400)%Z in
  let mp := (if (2 <? m)%Z then m - 3 else m + 9)%Z in
  let doy := ((153 * mp + 2) / 5 + d - 1)%Z in
  let doe := (yoe * 365 + yoe / 4 - yoe / 100 + doy)%Z in
  (era * 146097 + doe - 306)%Z.

Definition bad (value : string) : Time * error :=
  (zeroTime, Some ("cannot parse " ++ value)).

Definition opt_bind {A B} (o : option A) (k : A -> option B) : option B :=
  match o with Some a => k a | None => None end.

(** A value of the form [2006-01-02T15:04:05.000Z]. *)
Definition fields (value : string) : option (Z * Z * Z * Z * Z * Z * Z) :=
  opt_bind (number 4 0 value) (fun '(y, s) =>
  opt_bind (lit "-"%char s) (fun s =>
  opt_bind (number 2 0 s) (fun '(mo, s) =>
  opt_bind (lit "-"%char s) (fun s =>
  opt_bind (number 2 0 s) (fun '(d, s) =>
  opt_bind (lit "T"%char s) (fun s =>
  opt_bind (number 2 0 s) (fun '(h, s) =>
  opt_bind (lit ":"%char s) (fun s =>
  opt_bind (number 2 0 s) (fun '(mi, s) =>
  opt_bind (lit ":"%char s) (fun s =>
  opt_bind (number 2 0 s) (fun '(sec, s) =>
  opt_bind (lit "."%char s) (fun s =>
  opt_bind (number 3 0 s) (fun '(ms, s) =>
  opt_bind (lit "Z"%char s) (fun s =>
  match s with
  | EmptyString => Some (y, mo, d, h, mi, sec, ms)
  | _ => None
  end)))))))))))))).

Definition parse (layout value : string) : Time * error :=
  if negb (String.eqb layout RFC8601) then bad value
  else
    match fields value with
    | Some (y, mo, d, h, mi, sec, ms) =>
        if (andb (andb (andb (1 <=? mo) (mo <=? 12))
                       (andb (1 <=? d) (d <=? daysIn y mo)))
                 (andb (andb (h <? 24) (mi <? 60)) (sec <? 60)))%Z
        then
          ((((daysSinceZero y mo d * 24 + h) * 60 + mi) * 60 + sec) * 1000000000
            + ms * 1000000, None)%Z
        else bad value
    | None => bad value
    end.

Definition lib : TimeLib := {|
  time_Parse := parse;
  Time_String := fun t => DecimalString.NilZero.string_of_int (Z.to_int t)
|}.

End Clock.

(** ** Sample data *)

Module Sample.

Definition branch (v : string) : Tag.t := Tag.mk (Some "Branch") (Some v).

Definition ebsMapping (dev snap : string) : BlockDeviceMapping.t :=
  BlockDeviceMapping.mk (Some dev) None
    (Some (EbsBlockDevice.mk (Some snap))).

(** An instance-store volume: the mapping has a virtual name and no [Ebs]. *)
Definition ephemeralMapping (dev : string) : BlockDeviceMapping.t :=
  BlockDeviceMapping.mk (Some dev) (Some "ephemeral0") None.

Definition oldImage : Image.t :=
  Image.mk (Some "ami-0001") (Some "app-build-17")
    (Some "2019-03-01T10:20:30.000Z") (Some "ebs")
    [Tag.mk (Some "Owner") (Some "ci"); branch "feature"]
    [ebsMapping "/dev/xvda" "snap-a"; ebsMapping "/dev/xvdb" "snap-b"].

Definition undatedImage : Image.t :=
  Image.mk (Some "ami-0002") (Some "app-build-18")
    (Some "yesterday") (Some "ebs") [branch "feature"]
    [ebsMapping "/dev/xvda" "snap-c"].

Definition instanceStoreImage : Image.t :=
  Image.mk (Some "ami-0003") (Some "app-legacy")
    (Some "2018-01-01T00:00:00.000Z") (Some "instance-store") [] [].

Definition ephemeralImage : Image.t :=
  Image.mk (Some "ami-0004") (Some "app-build-19")
    (Some "2019-03-02T10:20:30.000Z") (Some "ebs") [branch "master"]
    [ebsMapping "/dev/xvda" "snap-d"; ephemeralMapping "/dev/sdb"].

Definition account : Account.t :=
  Account.mk [oldImage; undatedImage; instanceStoreImage; ephemeralImage]
    [Instance.mk (Some "i-01") (Some "ami-0002")]
    ["snap-a"; "snap-b"; "snap-c"; "snap-d"].

Definition world : World Account.t := mkWorld account [].

(** 2019-06-01T00:00:00.000Z *)
Definition expiration : Time :=
  fst (Clock.parse RFC8601 "2019-06-01T00:00:00.000Z").

Definition cleaner (delete invert unused : bool) : amiclean.AMIClean Account.t := {|
  amiclean.NamePrefix := "app-";
  amiclean.Delete := delete;
  amiclean.Tag := branch "feature";
  amiclean.Invert := invert;
  amiclean.Unused := unused;
  amiclean.ExpirationDate := expiration;
  amiclean.EC2Client := Account.client
|}.

Definition broken (delete invert unused : bool) : amiclean.AMIClean Account.t := {|
  amiclean.NamePrefix := "app-";
  amiclean.Delete := delete;
  amiclean.Tag := branch "feature";
  amiclean.Invert := invert;
  amiclean.Unused := unused;
  amiclean.ExpirationDate := expiration;
  amiclean.EC2Client := Account.failing
|}.

End Sample.

Import amiclean.

(** The events appended to the trace between two worlds. *)
Definition emitted {W} (w w' : World W) : list Event :=
  skipn (length (trace w)) (trace w').

(** The calls of the cloud API among the events. *)
Definition api_calls (l : list Event) : list Event := filter is_api_call l.

(** [a] with its [Invert] flag set to [b]. *)
Definition withInvert {W} (b : bool) (a : AMIClean W) : AMIClean W := {|
  NamePrefix := NamePrefix a;
  Delete := Delete a;
  Tag := Tag a;
  Invert := b;
  Unused := Unused a;
  ExpirationDate := ExpirationDate a;
  EC2Client := EC2Client a
|}.

(** The query for the images owned by "self". *)
Definition selfOwned : DescribeImagesInput.t :=
  DescribeImagesInput.mk [] [] [] [Some "self"].

(** The query for the instances that run [image]. *)
Definition instancesOf (image : Image.t) : DescribeInstancesInput.t :=
  DescribeInstancesInput.mk [Filter.mk (Some "image-id") [Image.ImageId image]] [].

(** The answer of the instance query reports no reservation for the image. *)
Definition reports_unused (r : option DescribeInstancesOutput.t * error) : Prop :=
  snd r = None /\
  exists out, fst r = Some out /\ DescribeInstancesOutput.Reservations out = None.

(** The answer of the instance query lists an instance that runs the image. *)
Definition reports_instance (r : option DescribeInstancesOutput.t * error) : Prop :=
  exists out reservations reservation instance,
    fst r = Some out /\
    DescribeInstancesOutput.Reservations out = Some reservations /\
    In reservation reservations /\
    In instance (Reservation.Instances reservation).

(** Every block device mapping carries an EBS snapshot ID. *)
Definition carries_snapshot (m : BlockDeviceMapping.t) : bool :=
  match BlockDeviceMapping.Ebs m with
  | Some ebs =>
      match EbsBlockDevice.SnapshotId ebs with Some _ => true | None => false end
  | None => false
  end.

(** The events of a purge. *)
Definition amiField (id : string) : list zap.Field := [zap.String "ami-id" id].
Definition snapshotField (id : string) : list zap.Field :=
  [zap.String "snapshot-id" id].

Definition deregisterCall (id : string) : Event :=
  CallDeregisterImage (DeregisterImageInput.mk (Some false) (Some id)).
Definition deleteCall (id : string) : Event :=
  CallDeleteSnapshot (DeleteSnapshotInput.mk (Some false) (Some id)).

(** The account after the [DeleteSnapshot] calls for [ids], when each of
    them succeeds. *)
Fixpoint afterDeletes {W} (c : EC2 W) (ids : list string) (s : W) : option W :=
  match ids with
  | [] => Some s
  | id :: rest =>
      match ec2_DeleteSnapshot c (DeleteSnapshotInput.mk (Some false) (Some id)) s with
      | ((_, None), s') => afterDeletes c rest s'
      | ((_, Some _), _) => None
      end
  end.

(** ** Vocabulary of the specification *)

Section Vocabulary.

Variable W : Type.
Variable tl : TimeLib.

Implicit Types (a : AMIClean W) (image : Image.t) (w : World W).

(** The verdict of [CheckUnused] on the answer of the instance query. *)
Definition verdict (r : option DescribeInstancesOutput.t * error)
  : Result (bool * error) :=
  match snd r with
  | Some e => Ok (false, Some e)
  | None =>
      match fst r with
      | None => Panic
      | Some out =>
          match DescribeInstancesOutput.Reservations out with
          | Some _ => Ok (false, None)
          | None => Ok (true, None)
          end
      end
  end.

(** The four conditions of the selection predicate. *)
Definition name_matches a image : Prop :=
  exists name, Image.Name image = Some name /\
               HasPrefix name (NamePrefix a) = true.

Definition old_enough a image : Prop :=
  exists date, Image.CreationDate image = Some date /\
               After (fst (time_Parse tl RFC8601 date)) (ExpirationDate a) = false.

Definition unused_if_asked a image w : Prop :=
  Unused a = true -> fst (CheckUnused a image w) = Ok (true, None).

Definition tag_selects a image : Prop :=
  exists m t, matchTags image (Tag a) = Ok (m, t) /\ m <> Invert a.

(** The snapshot a block device mapping names, if any. *)
Definition snapshotOf (m : BlockDeviceMapping.t) : option string :=
  match BlockDeviceMapping.Ebs m with
  | Some ebs => EbsBlockDevice.SnapshotId ebs
  | None => None
  end.

Definition notEbs (id : string) : Event :=
  Log InfoLevel "image root device not EBS; will not purge" (amiField id).
Definition wouldDeregister (id : string) : Event :=
  Log InfoLevel "would deregister ami" (amiField id).
Definition wouldDelete (id : string) : Event :=
  Log InfoLevel "would delete snapshot" (snapshotField id).
Definition deregistering (id : string) : Event :=
  Log InfoLevel "deregistering ami" (amiField id).
Definition deleting (id : string) : Event :=
  Log InfoLevel "deleting snapshot" (snapshotField id).

End Vocabulary.

Arguments name_matches {W} a image.
Arguments old_enough {W} tl a image.
Arguments unused_if_asked {W} a image w.
Arguments tag_selects {W} a image.

(** ** Vocabulary of the further properties *)

(** [a] with another expiration date, and with another [Unused] flag. *)
Definition withExpiration {W} (e : Time) (a : AMIClean W) : AMIClean W := {|
  NamePrefix := NamePrefix a;
  Delete := Delete a;
  Tag := Tag a;
  Invert := Invert a;
  Unused := Unused a;
  ExpirationDate := e;
  EC2Client := EC2Client a
|}.

Definition withUnused {W} (b : bool) (a : AMIClean W) : AMIClean W := {|
  NamePrefix := NamePrefix a;
  Delete := Delete a;
  Tag := Tag a;
  Invert := Invert a;
  Unused := b;
  ExpirationDate := ExpirationDate a;
  EC2Client := EC2Client a
|}.

(** A tag with a key other than [k]. *)
Definition lacks_key (k : string) (t : Tag.t) : Prop :=
  exists k', Tag.Key t = Some k' /\ k' <> k.

(** A tag with a key and a value. *)
Definition complete_tag (t : Tag.t) : Prop :=
  Tag.Key t <> None /\ Tag.Value t <> None.

(** The log lines among the events. *)
Definition log_lines (l : list Event) : list Event :=
  filter (fun e => negb (is_api_call e)) l.

(** The line [CheckImage] logs for an image it selects. *)
Definition selectionLine (id name key value created : string) : Event :=
  Log DebugLevel "ami matched selection criteria"
    [zap.String "ami-id" id;
     zap.String "ami-name" name;
     zap.String "ami-tag-key" key;
     zap.String "ami-tag-value" value;
     zap.String "ami-creation-date" created].

(** The line [CheckImage] logs when the usage check fails. *)
Definition usageErrorLine (id e : string) : Event :=
  Log ErrorLevel "Could not check for image in use"
    [zap.String "ami-id" id; zap.Error e].

(** An event that is a log line, the deregistration of [image] or the
    deletion of a snapshot one of its block device mappings names, the last
    two not as dry runs. *)
Definition own_event (image : Image.t) (e : Event) : Prop :=
  match e with
  | Log _ _ _ => True
  | CallDeregisterImage input =>
      exists id, Image.ImageId image = Some id /\
                 input = DeregisterImageInput.mk (Some false) (Some id)
  | CallDeleteSnapshot input =>
      exists m snap,
        In m (Image.BlockDeviceMappings image) /\
        snapshotOf m = Some snap /\
        input = DeleteSnapshotInput.mk (Some false) (Some snap)
  | _ => False
  end.

(** An image created at the expiration date of the samples. *)
Definition borderImage : Image.t :=
  Image.mk (Some "ami-0006") (Some "app-build-20")
    (Some "2019-06-01T00:00:00.000Z") (Some "ebs") [Sample.branch "feature"]
    [Sample.ebsMapping "/dev/xvda" "snap-e"].

(** An image without the Branch tag. *)
Definition untaggedImage : Image.t :=
  Image.mk (Some "ami-0007") (Some "app-build-21")
    (Some "2019-01-01T00:00:00.000Z") (Some "ebs")
    [Tag.mk (Some "Owner") (Some "ci")]
    [Sample.ebsMapping "/dev/xvda" "snap-f"].

(** The account of the samples after somebody else deleted [snap-b]. *)
Definition depleted : World Account.t :=
  mkWorld (Account.mk (Account.amis Sample.account)
             (Account.running Sample.account) ["snap-a"; "snap-c"; "snap-d"]) [].

(** * Properties *)

Section Properties.

Variable W : Type.
Variable tl : TimeLib.

Implicit Types (a : AMIClean W) (image : Image.t) (w : World W).

Lemma emitted_app w c l : emitted w (mkWorld c (trace w ++ l)) = l.
Proof.
  unfold emitted; simpl.
  induction (trace w) as [|e t IH]; simpl; auto.
Qed.

Lemma emitted_refl w : emitted w w = [].
Proof.
  unfold emitted. induction (trace w); simpl; auto.
Qed.

Ltac run :=
  unfold Logger_Debug, Logger_Info, Logger_Error, DescribeImages,
    DescribeInstances, DeregisterImage, DeleteSnapshot, aws.String, aws.Bool in *;
  unfold bind, ret, deref, lift, emit, call in *; simpl in *.

(** ** GetImages *)

(** C7: GetImages asks the image-description API for the images owned by
    "self" and makes no other call; when the call succeeds it returns the
    output of the API with a nil error, and when the call fails it returns
    nil and the error of the call. *)
Theorem GetImages_spec a w :
  let answer := ec2_DescribeImages (EC2Client a) selfOwned (cloud w) in
  emitted w (snd (GetImages a w)) = [CallDescribeImages selfOwned] /\
  cloud (snd (GetImages a w)) = snd answer /\
  (snd (fst answer) = None ->
     fst (GetImages a w) = Ok (fst (fst answer), None)) /\
  (forall e, snd (fst answer) = Some e ->
     fst (GetImages a w) = Ok (None, Some e)).
Proof.
  unfold GetImages, selfOwned. run.
  destruct (ec2_DescribeImages _ _ _) as [[output [e|]] c]; simpl;
    rewrite ?emitted_app; repeat split; auto; try discriminate.
  intros e' [= <-]. reflexivity.
Qed.

(** ** CheckUnused *)

Lemma CheckUnused_run a image w :
  let r := ec2_DescribeInstances (EC2Client a) (instancesOf image) (cloud w) in
  CheckUnused a image w =
    (verdict (fst r),
     mkWorld (snd r) (trace w ++ [CallDescribeInstances (instancesOf image)])).
Proof.
  unfold CheckUnused, findInstancesInput, instancesOf, verdict. run.
  destruct (ec2_DescribeInstances _ _ _) as [[[out|] [e|]] c]; simpl; auto.
  destruct (DescribeInstancesOutput.Reservations out); reflexivity.
Qed.

Lemma verdict_true r :
  (exists e, verdict r = Ok (true, e)) <-> reports_unused r.
Proof.
  unfold verdict, reports_unused. destruct r as [[out|] [e|]]; simpl.
  - split; [intros [e' H]; discriminate | intros [H _]; discriminate].
  - destruct (DescribeInstancesOutput.Reservations out) eqn:R.
    + split; [intros [e' H]; discriminate|].
      intros [_ [o [[= <-] H]]]. congruence.
    + split; eauto.
  - split; [intros [e' H]; discriminate | intros [H _]; discriminate].
  - split; [intros [e' H]; discriminate|].
    intros [_ [o [H _]]]. discriminate.
Qed.

Lemma verdict_instance r :
  reports_instance r -> exists e, verdict r = Ok (false, e).
Proof.
  unfold verdict, reports_instance.
  intros (out & rs & _ & _ & Hout & Hrs & _).
  destruct r as [o [e|]]; simpl in *; subst; eauto.
  rewrite Hrs. eauto.
Qed.

(** C4: CheckUnused returns true exactly when the instance query filtered on
    the image's ID succeeds and reports no reservation; it returns false
    whenever the answer lists an instance; and with the Unused option set
    CheckImage never selects an image for which the answer lists an
    instance.  No reservation is a nil [Reservations] slice, which is what
    the function tests. *)
Theorem CheckUnused_spec a image w :
  let answer := fst (ec2_DescribeInstances (EC2Client a) (instancesOf image) (cloud w)) in
  ((exists e, fst (CheckUnused a image w) = Ok (true, e)) <-> reports_unused answer) /\
  (reports_instance answer ->
     exists e, fst (CheckUnused a image w) = Ok (false, e)) /\
  (Unused a = true -> reports_instance answer ->
     fst (CheckImage tl a image w) <> Ok true).
Proof.
  intros answer. pose proof (CheckUnused_run a image w) as Hrun. simpl in Hrun.
  fold answer in Hrun.
  split; [|split].
  - rewrite Hrun. simpl. apply verdict_true.
  - rewrite Hrun. simpl. apply verdict_instance.
  - intros Hu Hi. apply verdict_instance in Hi as [e He].
    unfold CheckImage. rewrite Hu.
    destruct (Image.Name image) as [name|]; run; [|discriminate].
    destruct (negb (HasPrefix name (NamePrefix a))); [discriminate|].
    destruct (Image.CreationDate image) as [date|]; simpl; [|discriminate].
    destruct (time_Parse tl RFC8601 date) as [t perr].
    destruct (After t (ExpirationDate a)); [discriminate|].
    rewrite Hrun, He.
    destruct e; simpl; [|discriminate].
    destruct (Image.ImageId image); simpl; discriminate.
Qed.

(** ** CheckImage *)

Lemma matchTags_range_tag tags tag key m t :
  Tag.Key tag = Some key ->
  matchTags_range tags tag = Ok (m, t) ->
  exists k v, Tag.Key t = Some k /\ Tag.Value t = Some v.
Proof.
  intros Hk. induction tags as [|imageTag rest IH]; simpl.
  - intros [= _ <-]. simpl. rewrite Hk. eauto.
  - rewrite Hk. simpl.
    destruct (Tag.Key imageTag) as [ik|] eqn:Hik; simpl; [|discriminate].
    destruct (String.eqb key ik); auto.
    destruct (Tag.Value tag) as [v|]; simpl; [|discriminate].
    destruct (Tag.Value imageTag) as [iv|] eqn:Hiv; simpl; [|discriminate].
    destruct (String.eqb v iv); intros [= _ <-]; eauto.
Qed.

Ltac forward :=
  let H := fresh in
  intros H;
  first [ discriminate H
        | split; [eauto | split; [eauto | split;
            [ intros; first [reflexivity | discriminate]
            | do 2 eexists; split; [reflexivity | discriminate] ]]] ].

Lemma CheckImage_true_iff a image w id key :
  Image.ImageId image = Some id ->
  Tag.Key (Tag a) = Some key ->
  fst (CheckImage tl a image w) = Ok true <->
  name_matches a image /\ old_enough tl a image /\
  unused_if_asked a image w /\ tag_selects a image.
Proof.
  intros Hid Hkey.
  unfold name_matches, old_enough, unused_if_asked, tag_selects, CheckImage.
  destruct (Image.Name image) as [name|]; run.
  2:{ split; [discriminate | intros [[n [H _]] _]; discriminate]. }
  destruct (HasPrefix name (NamePrefix a)) eqn:Hp; simpl.
  2:{ split; [discriminate | intros [[n [[= <-] H]] _]; congruence]. }
  destruct (Image.CreationDate image) as [date|]; simpl.
  2:{ split; [discriminate | intros (_ & [d [H _]] & _); discriminate]. }
  destruct (time_Parse tl RFC8601 date) as [t perr] eqn:Hparse.
  destruct (After t (ExpirationDate a)) eqn:Hafter; simpl.
  { split; [destruct (Unused a); discriminate|].
    intros (_ & [d [[= <-] H]] & _). rewrite Hparse in H. simpl in H. congruence. }
  assert (Hname : exists n, Some name = Some n /\ HasPrefix n (NamePrefix a) = true)
    by eauto.
  assert (Hdate : exists d, Some date = Some d /\
            After (fst (time_Parse tl RFC8601 d)) (ExpirationDate a) = false)
    by (exists date; rewrite Hparse; auto).
  unfold matchTags in *. rewrite Hid. simpl.
  destruct (matchTags_range (Image.Tags image) (Tag a)) as [[m mt]|] eqn:Hm.
  - destruct (matchTags_range_tag _ _ _ _ _ Hkey Hm) as (k & v & Hk & Hv).
    rewrite Hk, Hv. simpl.
    destruct (Unused a); simpl.
    + destruct (CheckUnused a image w) as [[[u [e|]]|] w']; simpl.
      * split; [discriminate | intros (_ & _ & H & _); specialize (H eq_refl); discriminate].
      * destruct u; simpl.
        -- destruct m, (Invert a); simpl;
             (split; [forward | intros (_ & _ & _ & (m' & t' & [= <- <-] & Hne)); congruence]).
        -- split; [discriminate | intros (_ & _ & H & _); specialize (H eq_refl); discriminate].
      * split; [discriminate | intros (_ & _ & H & _); specialize (H eq_refl); discriminate].
    + destruct m, (Invert a); simpl;
        (split; [forward | intros (_ & _ & _ & (m' & t' & [= <- <-] & Hne)); congruence]).
  - destruct (Unused a); simpl.
    + destruct (CheckUnused a image w) as [[[u [e|]]|] w']; simpl;
        try destruct u; simpl;
        (split; [discriminate | intros (_ & _ & _ & (m' & t' & H & _)); discriminate]).
    + split; [discriminate | intros (_ & _ & _ & (m' & t' & H & _)); discriminate].
Qed.

(** C1: CheckImage returns true if and only if the image's name starts
    with the configured prefix, its parsed creation date is not after the
    expiration date, the usage check (when the Unused option is set)
    reports the image unused without error, and the result of the tag match
    differs from the Invert flag.  The image has an ID and the configured
    tag a key, which the selection log line dereferences. *)
Theorem CheckImage_selects a image w id key :
  Image.ImageId image = Some id ->
  Tag.Key (Tag a) = Some key ->
  fst (CheckImage tl a image w) = Ok true <->
  name_matches a image /\ old_enough tl a image /\
  unused_if_asked a image w /\ tag_selects a image.
Proof.
  apply CheckImage_true_iff.
Qed.

(** C6: for an image that passes the name, age and usage checks, CheckImage
    without Invert returns the result of the tag match and CheckImage with
    Invert returns its negation. *)
Theorem CheckImage_invert a image w id key :
  Image.ImageId image = Some id ->
  Tag.Key (Tag a) = Some key ->
  name_matches a image -> old_enough tl a image -> unused_if_asked a image w ->
  fst (CheckImage tl (withInvert false a) image w)
    = Res.map fst (matchTags image (Tag a)) /\
  fst (CheckImage tl (withInvert true a) image w)
    = Res.map negb (fst (CheckImage tl (withInvert false a) image w)).
Proof.
  intros Hid Hkey (name & Hname & Hp) (date & Hdate & Hafter) Hu.
  unfold unused_if_asked in Hu.
  assert (Hcu : forall b, CheckUnused (withInvert b a) image = CheckUnused a image)
    by reflexivity.
  unfold CheckImage. rewrite !Hcu. simpl.
  rewrite Hname, Hdate. run. rewrite Hp. simpl.
  destruct (time_Parse tl RFC8601 date) as [t perr]. simpl in Hafter.
  rewrite Hafter, Hid. simpl.
  unfold matchTags.
  destruct (matchTags_range (Image.Tags image) (Tag a)) as [[m mt]|] eqn:Hm.
  - destruct (matchTags_range_tag _ _ _ _ _ Hkey Hm) as (k & v & Hk & Hv).
    rewrite Hk, Hv. simpl.
    destruct (Unused a); simpl.
    + specialize (Hu eq_refl).
      destruct (CheckUnused a image w) as [r w']. simpl in Hu. subst r. simpl.
      destruct m; simpl; auto.
    + destruct m; simpl; auto.
  - destruct (Unused a); simpl; auto.
    specialize (Hu eq_refl).
    destruct (CheckUnused a image w) as [r w']. simpl in Hu. subst r. simpl. auto.
Qed.

(** C8: when the Unused option is set and the usage check fails with an
    error, CheckImage returns false. *)
Theorem CheckImage_usage_error a image w name date id unused e :
  Image.Name image = Some name ->
  Image.CreationDate image = Some date ->
  Image.ImageId image = Some id ->
  Unused a = true ->
  fst (CheckUnused a image w) = Ok (unused, Some e) ->
  fst (CheckImage tl a image w) = Ok false.
Proof.
  intros Hname Hdate Hid Hu He.
  unfold CheckImage. rewrite Hname, Hdate, Hu. run.
  destruct (negb (HasPrefix name (NamePrefix a))); auto.
  destruct (time_Parse tl RFC8601 date) as [t perr].
  destruct (After t (ExpirationDate a)); auto.
  destruct (CheckUnused a image w) as [r w']. simpl in He. subst r. simpl.
  rewrite Hid. reflexivity.
Qed.

(** C9: when the creation date of an image does not parse in the RFC8601
    layout, the creation time CheckImage compares is the zero time and the
    parse error is dropped: CheckImage runs as it would had the date parsed
    to the zero time without error.  The image passes the age check for
    every expiration date not before the zero time, and CheckImage then
    returns true exactly when the three other conditions hold. *)
Theorem CheckImage_unparsed_date a image w date t e :
  Parse_zero_on_error tl ->
  Image.CreationDate image = Some date ->
  time_Parse tl RFC8601 date = (t, Some e) ->
  Before (ExpirationDate a) zeroTime = false ->
  t = zeroTime /\
  (forall tl',
     time_Parse tl' RFC8601 date = (zeroTime, None) ->
     Time_String tl' = Time_String tl ->
     CheckImage tl' a image w = CheckImage tl a image w) /\
  old_enough tl a image /\
  (forall id key,
     Image.ImageId image = Some id ->
     Tag.Key (Tag a) = Some key ->
     (fst (CheckImage tl a image w) = Ok true <->
      name_matches a image /\ unused_if_asked a image w /\ tag_selects a image)).
Proof.
  intros Hzero Hdate Hparse Hexp.
  assert (Ht : t = zeroTime) by (eapply Hzero; eauto).
  assert (Hold : old_enough tl a image).
  { exists date. split; auto. rewrite Hparse. simpl. subst t.
    unfold After, Before, zeroTime in *.
    apply Z.ltb_ge. apply Z.ltb_ge in Hexp. lia. }
  split; [exact Ht | split; [| split; [exact Hold |]]].
  - intros tl' Hparse' Hstring. unfold CheckImage. rewrite Hdate.
    destruct (Image.Name image) as [name|]; run; auto.
    destruct (negb (HasPrefix name (NamePrefix a))); auto.
    rewrite Hparse, Hparse', Hstring, Ht. reflexivity.
  - intros id key Hid Hkey.
    rewrite (CheckImage_true_iff a image w id key Hid Hkey). tauto.
Qed.

(** ** PurgeImage *)

Lemma world_eta w : mkWorld (cloud w) (trace w) = w.
Proof. destruct w; reflexivity. Qed.

Lemma snapshotIdsOf_names mappings ids :
  snapshotIdsOf mappings = Ok ids <-> map snapshotOf mappings = map Some ids.
Proof.
  revert ids. induction mappings as [|m rest IH]; intros ids; simpl.
  - split.
    + intros [= <-]. reflexivity.
    + destruct ids; [reflexivity | discriminate].
  - unfold snapshotOf at 1.
    destruct (BlockDeviceMapping.Ebs m) as [ebs|]; simpl.
    2:{ split; [discriminate | destruct ids; discriminate]. }
    destruct (EbsBlockDevice.SnapshotId ebs) as [snap|]; simpl.
    2:{ split; [discriminate | destruct ids; discriminate]. }
    destruct (snapshotIdsOf rest) as [l|] eqn:Hrest; simpl.
    + split.
      * intros [= <-]. simpl. f_equal. apply IH. reflexivity.
      * destruct ids as [|i ids]; [discriminate|]. simpl.
        intros [= -> H]. apply IH in H. congruence.
    + split; [discriminate|].
      destruct ids as [|i ids]; [discriminate|]. simpl.
      intros [= -> H]. apply IH in H. discriminate.
Qed.

Lemma snapshotIdsOf_panic mappings :
  snapshotIdsOf mappings = Panic <-> forallb carries_snapshot mappings = false.
Proof.
  induction mappings as [|m rest IH]; simpl.
  - split; discriminate.
  - unfold carries_snapshot at 1.
    destruct (BlockDeviceMapping.Ebs m) as [ebs|]; simpl; [|tauto].
    destruct (EbsBlockDevice.SnapshotId ebs) as [snap|]; simpl; [|tauto].
    destruct (snapshotIdsOf rest) as [l|]; simpl.
    + split; [discriminate|]. intros H. apply IH in H. discriminate.
    + split; [|reflexivity]. intros _. apply IH. reflexivity.
Qed.

Lemma deleteSnapshots_dry a ids after w :
  Delete a = false ->
  deleteSnapshots a ids after w
    = after (mkWorld (cloud w) (trace w ++ map wouldDelete ids)).
Proof.
  intros Hd. revert w. induction ids as [|id rest IH]; intros w; simpl.
  - rewrite app_nil_r, world_eta. reflexivity.
  - rewrite Hd. run. rewrite IH. simpl. rewrite <- app_assoc. reflexivity.
Qed.

Lemma deleteSnapshots_ok a ids after w s :
  Delete a = true ->
  afterDeletes (EC2Client a) ids (cloud w) = Some s ->
  deleteSnapshots a ids after w
    = after (mkWorld s
               (trace w ++ flat_map (fun id => [deleting id; deleteCall id]) ids)).
Proof.
  intros Hd. revert w. induction ids as [|id rest IH]; intros w; simpl.
  - intros [= <-]. rewrite app_nil_r, world_eta. reflexivity.
  - rewrite Hd. run.
    destruct (ec2_DeleteSnapshot _ _ _) as [[out [e|]] c]; [discriminate|].
    intros H. simpl. rewrite IH by exact H. simpl.
    rewrite <- !app_assoc. reflexivity.
Qed.

Lemma deleteSnapshots_no_panic a ids after w :
  (forall w', fst (after w') <> Panic) ->
  fst (deleteSnapshots a ids after w) <> Panic.
Proof.
  intros Hafter. revert w. induction ids as [|id rest IH]; intros w; simpl; auto.
  destruct (Delete a); run; auto.
  destruct (ec2_DeleteSnapshot _ _ _) as [[out [e|]] c]; simpl; auto.
  discriminate.
Qed.

(** C5: for an image whose root device type is not "ebs", PurgeImage calls
    neither DeregisterImage nor DeleteSnapshot, whatever the Delete flag:
    it logs that the image will not be purged, leaves the account as it
    is, and returns the image's ID with a nil error. *)
Theorem PurgeImage_not_ebs a image w root id :
  Image.RootDeviceType image = Some root ->
  root <> "ebs" ->
  Image.ImageId image = Some id ->
  fst (PurgeImage a image w) = Ok (id, None) /\
  cloud (snd (PurgeImage a image w)) = cloud w /\
  emitted w (snd (PurgeImage a image w)) = [notEbs id].
Proof.
  intros Hroot Hne Hid. unfold PurgeImage. rewrite Hroot, Hid. run.
  apply String.eqb_neq in Hne. rewrite Hne. simpl.
  rewrite emitted_app. auto.
Qed.

(** C10: for an image rooted on EBS, PurgeImage dereferences the Ebs member
    and the snapshot ID of every block device mapping: it panics on a nil
    pointer exactly when some mapping carries no EBS snapshot ID, and then
    has called nothing. *)
Theorem PurgeImage_nil_deref a image w id :
  Image.RootDeviceType image = Some "ebs" ->
  Image.ImageId image = Some id ->
  (fst (PurgeImage a image w) = Panic <->
   forallb carries_snapshot (Image.BlockDeviceMappings image) = false) /\
  (fst (PurgeImage a image w) = Panic -> snd (PurgeImage a image w) = w).
Proof.
  intros Hroot Hid. unfold PurgeImage. rewrite Hroot, Hid. run.
  rewrite <- snapshotIdsOf_panic.
  destruct (snapshotIdsOf (Image.BlockDeviceMappings image)) as [ids|]; simpl.
  2:{ tauto. }
  assert (Hfin : forall w', fst ((fun w1 : World W => (Ok (id, @None string), w1)) w') <> Panic)
    by (intros w'; discriminate).
  match goal with
  | |- (fst ?r = Panic <-> _) /\ _ => assert (Hnp : fst r <> Panic)
  end.
  { destruct (Delete a); simpl.
    - destruct (ec2_DeregisterImage _ _ _) as [[out [e|]] c]; simpl;
        [discriminate | apply deleteSnapshots_no_panic; exact Hfin].
    - apply deleteSnapshots_no_panic; exact Hfin. }
  split; [split; intros H; [contradiction | discriminate] | intros H; contradiction].
Qed.

(** X13: in dry-run mode PurgeImage calls no operation of the cloud API and
    leaves the account as it is, for every image. *)
Lemma PurgeImage_dry_run_no_calls a image w :
  Delete a = false ->
  api_calls (emitted w (snd (PurgeImage a image w))) = [] /\
  cloud (snd (PurgeImage a image w)) = cloud w.
Proof.
  intros Hd. unfold PurgeImage. rewrite Hd.
  assert (Hnil : api_calls (emitted w w) = [] /\ cloud w = cloud w)
    by (rewrite emitted_refl; auto).
  destruct (Image.RootDeviceType image) as [root|]; run; auto.
  destruct (String.eqb root "ebs"); simpl.
  - destruct (snapshotIdsOf _) as [ids|]; simpl; auto.
    destruct (Image.ImageId image) as [id|]; simpl; auto.
    rewrite deleteSnapshots_dry by exact Hd. simpl.
    rewrite <- app_assoc, emitted_app. split; auto.
    simpl. induction ids; simpl; auto.
  - destruct (Image.ImageId image) as [id|]; simpl; auto.
    rewrite emitted_app. auto.
Qed.

(** X14: in dry-run mode, for an image rooted on EBS whose block device
    mappings all carry a snapshot ID, PurgeImage reports the deregistration
    and one deletion per mapping, in mapping order, and returns the image's
    ID with a nil error. *)
Lemma PurgeImage_dry_run_reports a image w id ids :
  Delete a = false ->
  Image.RootDeviceType image = Some "ebs" ->
  Image.ImageId image = Some id ->
  map snapshotOf (Image.BlockDeviceMappings image) = map Some ids ->
  PurgeImage a image w
    = (Ok (id, None),
       mkWorld (cloud w) (trace w ++ wouldDeregister id :: map wouldDelete ids)).
Proof.
  intros Hd Hroot Hid Hids. apply snapshotIdsOf_names in Hids.
  unfold PurgeImage. rewrite Hd, Hroot, Hid, Hids. run.
  rewrite deleteSnapshots_dry by exact Hd. simpl.
  rewrite <- app_assoc. reflexivity.
Qed.

(** X15: with the Delete flag set, for an image rooted on EBS whose block device
    mappings all carry a snapshot ID, PurgeImage first deregisters the
    image and then deletes the snapshots of the mappings, one call per
    mapping in mapping order, and returns the image's ID with a nil error
    when every call succeeds. *)
Lemma PurgeImage_delete_ok a image w id ids out s s' :
  Delete a = true ->
  Image.RootDeviceType image = Some "ebs" ->
  Image.ImageId image = Some id ->
  map snapshotOf (Image.BlockDeviceMappings image) = map Some ids ->
  ec2_DeregisterImage (EC2Client a)
    (DeregisterImageInput.mk (Some false) (Some id)) (cloud w) = ((out, None), s) ->
  afterDeletes (EC2Client a) ids s = Some s' ->
  fst (PurgeImage a image w) = Ok (id, None) /\
  cloud (snd (PurgeImage a image w)) = s' /\
  api_calls (emitted w (snd (PurgeImage a image w)))
    = deregisterCall id :: map deleteCall ids.
Proof.
  intros Hd Hroot Hid Hids Hdereg Hdel. apply snapshotIdsOf_names in Hids.
  unfold PurgeImage. rewrite Hd, Hroot, Hid, Hids. run.
  rewrite Hdereg. simpl.
  rewrite (deleteSnapshots_ok a ids _ _ s') by (simpl; auto). simpl.
  rewrite <- !app_assoc, emitted_app. repeat split.
  simpl. unfold deregisterCall. f_equal.
  clear. induction ids; simpl; auto. unfold deleteCall at 1. f_equal. auto.
Qed.

End Properties.

(** * The properties on the sample account *)

Lemma Clock_parse_zero_on_error : Parse_zero_on_error Clock.lib.
Proof.
  intros layout value t e. simpl. unfold Clock.parse, Clock.bad.
  destruct (negb (String.eqb layout RFC8601)); [intros [= <- _]; reflexivity|].
  destruct (Clock.fields value) as [[[[[[[y mo] d] h] mi] sec] ms]|];
    [|intros [= <- _]; reflexivity].
  match goal with |- (if ?c then _ else _) = _ -> _ => destruct c end;
    [discriminate | intros [= <- _]; reflexivity].
Qed.

(** The selection predicate on an old image of the sample account. *)
Lemma CheckImage_selects_witness :
  let a := Sample.cleaner false false true in
  Image.ImageId Sample.oldImage = Some "ami-0001" /\
  Tag.Key (Tag a) = Some "Branch" /\
  (fst (CheckImage Clock.lib a Sample.oldImage Sample.world) = Ok true <->
   name_matches a Sample.oldImage /\ old_enough Clock.lib a Sample.oldImage /\
   unused_if_asked a Sample.oldImage Sample.world /\ tag_selects a Sample.oldImage).
Proof.
  split; [reflexivity | split; [reflexivity |]].
  apply (CheckImage_selects Account.t Clock.lib _ _ _ "ami-0001" "Branch");
    reflexivity.
Defined.

(** The old image carries the configured tag: selected without Invert,
    spared with it. *)
Lemma CheckImage_invert_witness :
  let a := Sample.cleaner false false true in
  fst (CheckImage Clock.lib (withInvert false a) Sample.oldImage Sample.world)
    = Ok true /\
  fst (CheckImage Clock.lib (withInvert true a) Sample.oldImage Sample.world)
    = Ok false.
Proof.
  apply (CheckImage_invert Account.t Clock.lib (Sample.cleaner false false true)
           Sample.oldImage Sample.world "ami-0001" "Branch").
  - reflexivity.
  - reflexivity.
  - exists "app-build-17". split; reflexivity.
  - exists "2019-03-01T10:20:30.000Z". split; reflexivity.
  - intros _. reflexivity.
Defined.

(** With a client whose calls fail, the old image is not selected. *)
Lemma CheckImage_usage_error_witness :
  let a := Sample.broken false false true in
  Unused a = true /\
  fst (CheckUnused a Sample.oldImage Sample.world) = Ok (false, Some "RequestError") /\
  fst (CheckImage Clock.lib a Sample.oldImage Sample.world) = Ok false.
Proof.
  split; [reflexivity | split; [reflexivity |]].
  apply (CheckImage_usage_error Account.t Clock.lib _ _ _
           "app-build-17" "2019-03-01T10:20:30.000Z" "ami-0001" false "RequestError");
    reflexivity.
Defined.

(** An image dated "yesterday" is old enough, and selected. *)
Lemma CheckImage_unparsed_date_witness :
  let a := Sample.cleaner false false false in
  time_Parse Clock.lib RFC8601 "yesterday" = (zeroTime, Some "cannot parse yesterday") /\
  Before (ExpirationDate a) zeroTime = false /\
  old_enough Clock.lib a Sample.undatedImage /\
  fst (CheckImage Clock.lib a Sample.undatedImage Sample.world) = Ok true.
Proof.
  pose proof (CheckImage_unparsed_date Account.t Clock.lib
                (Sample.cleaner false false false) Sample.undatedImage Sample.world
                "yesterday" zeroTime "cannot parse yesterday"
                Clock_parse_zero_on_error eq_refl eq_refl eq_refl)
    as (_ & _ & Hold & Hiff).
  split; [reflexivity | split; [reflexivity | split; [exact Hold |]]].
  apply (Hiff "ami-0002" "Branch" eq_refl eq_refl).
  split; [| split].
  - exists "app-build-18". split; reflexivity.
  - intros H. discriminate H.
  - exists true, (Sample.branch "feature"). split; [reflexivity | discriminate].
Defined.

(** An instance-store image is left alone, even with the Delete flag. *)
Lemma PurgeImage_not_ebs_witness :
  let a := Sample.cleaner true false false in
  Image.RootDeviceType Sample.instanceStoreImage = Some "instance-store" /\
  fst (PurgeImage a Sample.instanceStoreImage Sample.world) = Ok ("ami-0003", None) /\
  cloud (snd (PurgeImage a Sample.instanceStoreImage Sample.world)) = Sample.account /\
  emitted Sample.world (snd (PurgeImage a Sample.instanceStoreImage Sample.world))
    = [notEbs "ami-0003"].
Proof.
  split; [reflexivity |].
  apply (PurgeImage_not_ebs Account.t (Sample.cleaner true false false)
           Sample.instanceStoreImage Sample.world "instance-store" "ami-0003");
    [reflexivity | discriminate | reflexivity].
Defined.

(** An image with an instance-store volume among its mappings. *)
Lemma PurgeImage_nil_deref_witness :
  let a := Sample.cleaner true false false in
  forallb carries_snapshot (Image.BlockDeviceMappings Sample.ephemeralImage) = false /\
  (fst (PurgeImage a Sample.ephemeralImage Sample.world) = Panic <->
   forallb carries_snapshot (Image.BlockDeviceMappings Sample.ephemeralImage) = false) /\
  (fst (PurgeImage a Sample.ephemeralImage Sample.world) = Panic ->
   snd (PurgeImage a Sample.ephemeralImage Sample.world) = Sample.world).
Proof.
  split; [reflexivity |].
  apply (PurgeImage_nil_deref Account.t (Sample.cleaner true false false)
           Sample.ephemeralImage Sample.world "ami-0004"); reflexivity.
Defined.

(** C2: in dry-run mode PurgeImage is to report the intended actions and
    return the image's ID, for every image.  On an image rooted on EBS with an
    instance-store volume among its block device mappings it panics on the
    nil Ebs pointer instead, before it reports anything. *)
Theorem PurgeImage_dry_run_ephemeral :
  PurgeImage (Sample.cleaner false false false) Sample.ephemeralImage Sample.world
    = (Panic, Sample.world).
Proof. reflexivity. Qed.

(** C3: with the Delete flag set PurgeImage is to deregister an image rooted
    on EBS and to delete the snapshots its block device mappings name.  On an
    image with an instance-store volume among its mappings it panics on the
    nil Ebs pointer instead: the image stays registered and its snapshot
    stays. *)
Theorem PurgeImage_delete_ephemeral :
  PurgeImage (Sample.cleaner true false false) Sample.ephemeralImage Sample.world
    = (Panic, Sample.world).
Proof. reflexivity. Qed.

(** The same purges on an image whose mappings all name a snapshot. *)
Example PurgeImage_dry_run_oldImage :
  PurgeImage (Sample.cleaner false false false) Sample.oldImage Sample.world
    = (Ok ("ami-0001", None),
       mkWorld Sample.account
         [wouldDeregister "ami-0001"; wouldDelete "snap-a"; wouldDelete "snap-b"]).
Proof. reflexivity. Qed.

Example PurgeImage_delete_oldImage :
  let r := PurgeImage (Sample.cleaner true false false) Sample.oldImage Sample.world in
  fst r = Ok ("ami-0001", None) /\
  trace (snd r)
    = [deregistering "ami-0001"; deregisterCall "ami-0001";
       deleting "snap-a"; deleteCall "snap-a";
       deleting "snap-b"; deleteCall "snap-b"] /\
  Account.snapshots (cloud (snd r)) = ["snap-c"; "snap-d"] /\
  List.map Image.ImageId (Account.amis (cloud (snd r)))
    = [Some "ami-0002"; Some "ami-0003"; Some "ami-0004"].
Proof. repeat split. Qed.

Example CheckImage_in_use :
  fst (CheckImage Clock.lib (Sample.cleaner false false true)
         Sample.undatedImage Sample.world) = Ok false.
Proof. reflexivity. Qed.

Example GetImages_failing :
  fst (GetImages (Sample.broken false false false) Sample.world)
    = Ok (None, Some "RequestError").
Proof. reflexivity. Qed.

(** The first image tag with the wanted key decides the match. *)
Example matchTags_first_key :
  matchTags
    (Image.mk (Some "ami-0005") (Some "app") (Some "") (Some "ebs")
       [Sample.branch "master"; Sample.branch "feature"] [])
    (Sample.branch "feature")
  = Ok (false, Sample.branch "master").
Proof. reflexivity. Qed.

Example matchTags_not_found :
  matchTags Sample.instanceStoreImage (Sample.branch "feature")
  = Ok (false, Tag.mk (Some "Branch") (Some "not found")).
Proof. reflexivity. Qed.

(** * Further properties of the package *)

Section Coverage.

Variable W : Type.
Variable tl : TimeLib.

Implicit Types (a : AMIClean W) (image : Image.t) (w : World W).

Ltac run :=
  unfold Logger_Debug, Logger_Info, Logger_Error, DescribeImages,
    DescribeInstances, DeregisterImage, DeleteSnapshot, aws.String, aws.Bool in *;
  unfold bind, ret, deref, lift, emit, call in *; simpl in *.

(** ** matchTags *)

Lemma matchTags_range_skip pre rest tag k :
  Tag.Key tag = Some k ->
  Forall (lacks_key k) pre ->
  matchTags_range (pre ++ rest)%list tag = matchTags_range rest tag.
Proof.
  intros Hk Hpre. induction Hpre as [|t pre (k' & Hk' & Hne) _ IH]; simpl; auto.
  rewrite Hk, Hk'. simpl.
  destruct (String.eqb_spec k k') as [->|_]; [contradiction | exact IH].
Qed.

(** X1: the first image tag that carries the wanted key decides the match: the
    result is whether its value is the wanted one, and the tag returned is
    that tag; the tags after it are not looked at. *)
Theorem matchTags_first_with_key image tag k v pre t tv post :
  Tag.Key tag = Some k ->
  Tag.Value tag = Some v ->
  Image.Tags image = (pre ++ t :: post)%list ->
  Forall (lacks_key k) pre ->
  Tag.Key t = Some k ->
  Tag.Value t = Some tv ->
  matchTags image tag = Ok (String.eqb v tv, t).
Proof.
  intros Hk Hv Htags Hpre Htk Htv. unfold matchTags. rewrite Htags.
  rewrite (matchTags_range_skip pre (t :: post) tag k Hk Hpre). simpl.
  rewrite Hk, Htk, Hv, Htv. simpl. rewrite String.eqb_refl.
  destruct (String.eqb v tv); reflexivity.
Qed.

(** X2: when no tag of the image carries the wanted key, the match is false and
    the tag returned is a filler with that key and the value "not found";
    the wanted value is not looked at. *)
Theorem matchTags_key_absent image tag k :
  Tag.Key tag = Some k ->
  Forall (lacks_key k) (Image.Tags image) ->
  matchTags image tag = Ok (false, Tag.mk (Some k) (Some "not found")).
Proof.
  intros Hk Hall. unfold matchTags.
  rewrite <- (app_nil_r (Image.Tags image)).
  rewrite (matchTags_range_skip _ [] tag k Hk Hall). simpl. rewrite Hk. reflexivity.
Qed.

(** X3: a match is never made up: when matchTags returns true, the tag it
    returns is a tag of the image whose key and value are the wanted ones. *)
Theorem matchTags_true_sound image tag t :
  matchTags image tag = Ok (true, t) ->
  In t (Image.Tags image) /\
  exists k v, Tag.Key tag = Some k /\ Tag.Value tag = Some v /\
              Tag.Key t = Some k /\ Tag.Value t = Some v.
Proof.
  unfold matchTags. induction (Image.Tags image) as [|imageTag rest IH]; simpl.
  - discriminate.
  - destruct (Tag.Key tag) as [k|] eqn:Hk; simpl; [|discriminate].
    destruct (Tag.Key imageTag) as [ik|] eqn:Hik; simpl; [|discriminate].
    destruct (String.eqb_spec k ik) as [<-|_].
    + destruct (Tag.Value tag) as [v|] eqn:Hv; simpl; [|discriminate].
      destruct (Tag.Value imageTag) as [iv|] eqn:Hiv; simpl; [|discriminate].
      destruct (String.eqb_spec v iv) as [<-|_]; [|discriminate].
      intros [= <-]. split; [left; reflexivity | eauto 6].
    + intros H. destruct (IH H) as [Hin Hex]. split; [right; exact Hin | exact Hex].
Qed.

(** X4: matchTags dereferences no nil pointer when the wanted tag and every tag
    of the image have a key and a value. *)
Theorem matchTags_no_panic image tag :
  complete_tag tag ->
  Forall complete_tag (Image.Tags image) ->
  exists m t, matchTags image tag = Ok (m, t).
Proof.
  intros [Hk Hv] Hall. unfold matchTags.
  destruct (Tag.Key tag) as [k|] eqn:Ek; [|contradiction].
  destruct (Tag.Value tag) as [v|] eqn:Ev; [|contradiction].
  induction Hall as [|imageTag rest [Hik Hiv] _ IH]; simpl.
  - eauto.
  - rewrite Ek, Ev.
    destruct (Tag.Key imageTag) as [ik|]; [|contradiction].
    destruct (Tag.Value imageTag) as [iv|]; [|contradiction]. simpl.
    destruct (String.eqb k ik); [|exact IH].
    destruct (String.eqb v iv); eauto.
Qed.

(** ** CheckUnused *)

(** X5: CheckUnused makes one call, the instance query, and logs nothing.  An
    error of the query is returned as it is, with false; an answer with a
    reservations slice that is not nil counts as in use, even when the slice
    is empty; an answer with neither an output nor an error makes the
    function dereference nil. *)
Theorem CheckUnused_answers a image w out err c :
  ec2_DescribeInstances (EC2Client a) (instancesOf image) (cloud w) = ((out, err), c) ->
  snd (CheckUnused a image w)
    = mkWorld c (trace w ++ [CallDescribeInstances (instancesOf image)]) /\
  (forall e, err = Some e -> fst (CheckUnused a image w) = Ok (false, Some e)) /\
  (forall o rs, err = None -> out = Some o ->
     DescribeInstancesOutput.Reservations o = Some rs ->
     fst (CheckUnused a image w) = Ok (false, None)) /\
  (err = None -> out = None -> fst (CheckUnused a image w) = Panic).
Proof.
  intros Hq. pose proof (CheckUnused_run W a image w) as Hrun. simpl in Hrun.
  rewrite Hq in Hrun. rewrite Hrun. unfold verdict. simpl.
  split; [reflexivity | split; [| split]].
  - intros e ->. reflexivity.
  - intros o rs -> -> Hrs. rewrite Hrs. reflexivity.
  - intros -> ->. reflexivity.
Qed.

(** ** CheckImage *)

(** X6: an image whose name lacks the prefix, or whose creation time is after
    the expiration date, is rejected at once: CheckImage returns false
    without a call to the cloud API and without a log line, also when the
    Unused option is set. *)
Theorem CheckImage_rejects_early a image w name :
  Image.Name image = Some name ->
  HasPrefix name (NamePrefix a) = false \/
  (exists date, Image.CreationDate image = Some date /\
     After (fst (time_Parse tl RFC8601 date)) (ExpirationDate a) = true) ->
  CheckImage tl a image w = (Ok false, w).
Proof.
  intros Hname Hwhy. unfold CheckImage. rewrite Hname. run.
  destruct (HasPrefix name (NamePrefix a)); simpl; [|reflexivity].
  destruct Hwhy as [Hp | (date & Hdate & Hafter)]; [discriminate|].
  rewrite Hdate. simpl.
  destruct (time_Parse tl RFC8601 date) as [t perr]. simpl in Hafter.
  rewrite Hafter. reflexivity.
Qed.

Lemma emitted_app2 w c (l1 l2 : list Event) :
  emitted w (mkWorld c ((trace w ++ l1) ++ l2)) = (l1 ++ l2)%list.
Proof.
  rewrite <- app_assoc. apply emitted_app.
Qed.

Ltac step :=
  match goal with
  | |- context [match ?x with _ => _ end] => destruct x eqn:?; simpl
  end.

(** X7: CheckImage asks the cloud at most once, with the instance query for the
    image, and changes the account through nothing else; with the Unused
    option off it makes no call at all. *)
Theorem CheckImage_api_calls a image w :
  let r := CheckImage tl a image w in
  (Unused a = false ->
     api_calls (emitted w (snd r)) = [] /\ cloud (snd r) = cloud w) /\
  (api_calls (emitted w (snd r)) = [] /\ cloud (snd r) = cloud w \/
   Unused a = true /\
   api_calls (emitted w (snd r)) = [CallDescribeInstances (instancesOf image)] /\
   cloud (snd r)
     = snd (ec2_DescribeInstances (EC2Client a) (instancesOf image) (cloud w))).
Proof.
  assert (H0 : api_calls (emitted w w) = [] /\ cloud w = cloud w)
    by (rewrite emitted_refl; auto).
  assert (H1 : forall e, is_api_call e = false ->
            api_calls (emitted w (mkWorld (cloud w) (trace w ++ [e]))) = [] /\
            cloud w = cloud w)
    by (intros e He; rewrite emitted_app; simpl; rewrite He; auto).
  unfold CheckImage. simpl.
  destruct (Image.Name image) as [name|]; run; [|split; auto].
  destruct (negb (HasPrefix name (NamePrefix a))); simpl; [split; auto|].
  destruct (Image.CreationDate image) as [date|]; simpl; [|split; auto].
  destruct (time_Parse tl RFC8601 date) as [t perr].
  destruct (After t (ExpirationDate a)); simpl; [split; auto|].
  destruct (Unused a); simpl.
  - split; [discriminate|]. right. split; [reflexivity|].
    rewrite (CheckUnused_run W a image w). simpl.
    destruct (ec2_DescribeInstances (EC2Client a) (instancesOf image) (cloud w))
      as [answer c]. simpl.
    repeat step; rewrite ?emitted_app, ?emitted_app2; simpl; auto.
  - split; [intros _ | left];
      (repeat step; rewrite ?emitted_refl, ?emitted_app; simpl; auto).
Qed.

(** X8: a later expiration date selects at least as much: an image CheckImage
    selects is selected under every expiration date that is not earlier. *)
Theorem CheckImage_expiration_mono a image w e :
  (ExpirationDate a <= e)%Z ->
  fst (CheckImage tl a image w) = Ok true ->
  fst (CheckImage tl (withExpiration e a) image w) = Ok true.
Proof.
  intros Hle.
  assert (Hcu : CheckUnused (withExpiration e a) image = CheckUnused a image)
    by reflexivity.
  unfold CheckImage. rewrite Hcu. simpl.
  destruct (Image.Name image) as [name|]; run; [|discriminate].
  destruct (negb (HasPrefix name (NamePrefix a))); simpl; [discriminate|].
  destruct (Image.CreationDate image) as [date|]; simpl; [|discriminate].
  destruct (time_Parse tl RFC8601 date) as [t perr].
  unfold After.
  destruct (Z.ltb_spec (ExpirationDate a) t) as [Hlt|Hge]; [discriminate|].
  destruct (Z.ltb_spec e t) as [Hlt'|_]; [lia|].
  intros H. exact H.
Qed.

(** X9: the age test is inclusive: an image created at the expiration date itself
    is old enough, and CheckImage selects it when the other conditions hold. *)
Theorem CheckImage_at_expiration a image w id key date :
  Image.ImageId image = Some id ->
  Tag.Key (Tag a) = Some key ->
  Image.CreationDate image = Some date ->
  fst (time_Parse tl RFC8601 date) = ExpirationDate a ->
  name_matches a image -> unused_if_asked a image w -> tag_selects a image ->
  fst (CheckImage tl a image w) = Ok true.
Proof.
  intros Hid Hkey Hdate Ht Hn Hu Hs.
  apply (CheckImage_true_iff W tl a image w id key Hid Hkey).
  repeat split; auto.
  exists date. split; [exact Hdate|]. rewrite Ht. unfold After. apply Z.ltb_irrefl.
Qed.

(** X10: the usage check only takes images away: an image CheckImage selects with
    the Unused option set is selected with the option off. *)
Theorem CheckImage_unused_mono a image w :
  fst (CheckImage tl (withUnused true a) image w) = Ok true ->
  fst (CheckImage tl (withUnused false a) image w) = Ok true.
Proof.
  assert (Hcu : CheckUnused (withUnused true a) image = CheckUnused a image)
    by reflexivity.
  unfold CheckImage. rewrite Hcu. simpl.
  destruct (Image.Name image) as [name|]; run; [|discriminate].
  destruct (negb (HasPrefix name (NamePrefix a))); simpl; [discriminate|].
  destruct (Image.CreationDate image) as [date|]; simpl; [|discriminate].
  destruct (time_Parse tl RFC8601 date) as [t perr].
  destruct (After t (ExpirationDate a)); simpl; [discriminate|].
  destruct (CheckUnused a image w) as [[[u [e|]]|] w']; simpl.
  - destruct (Res.deref (Image.ImageId image)); discriminate.
  - destruct u; simpl; [|discriminate].
    repeat step; auto; discriminate.
  - discriminate.
Qed.

(** X11: with Invert set, an image that carries no tag with the wanted key at all
    is selected once it passes the other checks, and with the Unused option
    off the one line CheckImage logs gives "not found" as the tag's value. *)
Theorem CheckImage_invert_key_absent a image w id name date key :
  Invert a = true ->
  Unused a = false ->
  Image.ImageId image = Some id ->
  Image.Name image = Some name ->
  HasPrefix name (NamePrefix a) = true ->
  Image.CreationDate image = Some date ->
  After (fst (time_Parse tl RFC8601 date)) (ExpirationDate a) = false ->
  Tag.Key (Tag a) = Some key ->
  Forall (lacks_key key) (Image.Tags image) ->
  CheckImage tl a image w
    = (Ok true,
       mkWorld (cloud w)
         (trace w ++
          [selectionLine id name key "not found"
             (Time_String tl (fst (time_Parse tl RFC8601 date)))])).
Proof.
  intros Hinv Hun Hid Hname Hp Hdate Hafter Hkey Habsent.
  unfold CheckImage. rewrite Hname, Hdate, Hun, Hinv. run. rewrite Hp. simpl.
  destruct (time_Parse tl RFC8601 date) as [t perr]. simpl in *.
  rewrite Hafter, Hid. unfold matchTags.
  rewrite <- (app_nil_r (Image.Tags image)).
  rewrite (matchTags_range_skip _ [] (Tag a) key Hkey Habsent). simpl.
  rewrite Hkey. reflexivity.
Qed.

(** X12: what CheckImage logs tells what it decided: it returns true only after
    logging the selection line, as its only line, with the image's ID and
    name; when it returns false it has logged nothing or the one line of a
    failed usage check; when it dereferences nil it has logged nothing. *)
Theorem CheckImage_log a image w :
  let r := CheckImage tl a image w in
  let lines := log_lines (emitted w (snd r)) in
  (fst r = Ok true ->
     exists id name key value created,
       Image.ImageId image = Some id /\ Image.Name image = Some name /\
       lines = [selectionLine id name key value created]) /\
  (fst r = Ok false ->
     lines = [] \/
     exists id e, Image.ImageId image = Some id /\ lines = [usageErrorLine id e]) /\
  (fst r = Panic -> lines = []).
Proof.
  unfold CheckImage. simpl.
  destruct (Image.Name image) as [name|]; run;
    [| rewrite emitted_refl; repeat split; try discriminate; auto].
  destruct (negb (HasPrefix name (NamePrefix a))); simpl;
    [rewrite emitted_refl; repeat split; try discriminate; auto|].
  destruct (Image.CreationDate image) as [date|]; simpl;
    [| rewrite emitted_refl; repeat split; try discriminate; auto].
  destruct (time_Parse tl RFC8601 date) as [t perr].
  destruct (After t (ExpirationDate a)); simpl;
    [rewrite emitted_refl; repeat split; try discriminate; auto|].
  unfold selectionLine, usageErrorLine.
  destruct (Image.ImageId image) as [id|]; simpl.
  all: destruct (Unused a); simpl.
  all: try (rewrite (CheckUnused_run W a image w); simpl;
            destruct (ec2_DescribeInstances (EC2Client a) (instancesOf image) (cloud w))
              as [answer c]; simpl).
  all: repeat step; rewrite ?emitted_refl, ?emitted_app, ?emitted_app2; simpl;
      (split; [| split]); intros Hr; try discriminate Hr; eauto 12.
Qed.

(** ** PurgeImage *)

(** X16: when the deregistration fails, PurgeImage stops: it returns the message
    "Failed to deregister image" with the error of the call and has asked for
    no snapshot to be deleted. *)
Theorem PurgeImage_deregister_fails a image w id ids out e s :
  Delete a = true ->
  Image.RootDeviceType image = Some "ebs" ->
  Image.ImageId image = Some id ->
  map snapshotOf (Image.BlockDeviceMappings image) = map Some ids ->
  ec2_DeregisterImage (EC2Client a)
    (DeregisterImageInput.mk (Some false) (Some id)) (cloud w) = ((out, Some e), s) ->
  PurgeImage a image w
    = (Ok ("Failed to deregister image", Some e),
       mkWorld s (trace w ++ [deregistering id; deregisterCall id])).
Proof.
  intros Hd Hroot Hid Hids Hdereg.
  apply (snapshotIdsOf_names (Image.BlockDeviceMappings image) ids) in Hids.
  unfold PurgeImage. rewrite Hd, Hroot, Hid, Hids. run.
  rewrite Hdereg. simpl. rewrite <- app_assoc. reflexivity.
Qed.

Lemma deleteSnapshots_fails a pre sn post after w s1 out e s2 :
  Delete a = true ->
  afterDeletes (EC2Client a) pre (cloud w) = Some s1 ->
  ec2_DeleteSnapshot (EC2Client a)
    (DeleteSnapshotInput.mk (Some false) (Some sn)) s1 = ((out, Some e), s2) ->
  deleteSnapshots a (pre ++ sn :: post)%list after w
    = (Ok ("Failed to delete snapshot", Some e),
       mkWorld s2
         (trace w ++ flat_map (fun id => [deleting id; deleteCall id]) (pre ++ [sn]))).
Proof.
  intros Hd. revert w. induction pre as [|p pre IH]; intros w; simpl.
  - intros [= <-] Hfail. rewrite Hd. run. rewrite Hfail. simpl.
    rewrite <- app_assoc. reflexivity.
  - rewrite Hd. run.
    destruct (ec2_DeleteSnapshot (EC2Client a)
                (DeleteSnapshotInput.mk (Some false) (Some p)) (cloud w))
      as [[o [e'|]] c] eqn:Hp; [discriminate|].
    intros Hpre Hfail. simpl.
    rewrite IH by (simpl; assumption).
    simpl. rewrite <- !app_assoc. reflexivity.
Qed.

(** X17: when the deletion of a snapshot fails, PurgeImage stops at that snapshot:
    it returns the message "Failed to delete snapshot" with the error of the
    call; the image is deregistered and the snapshots before the failing one
    are deleted, those after it are not asked for. *)
Theorem PurgeImage_delete_fails a image w id pre sn post out s s1 out' e s2 :
  Delete a = true ->
  Image.RootDeviceType image = Some "ebs" ->
  Image.ImageId image = Some id ->
  map snapshotOf (Image.BlockDeviceMappings image) = map Some (pre ++ sn :: post) ->
  ec2_DeregisterImage (EC2Client a)
    (DeregisterImageInput.mk (Some false) (Some id)) (cloud w) = ((out, None), s) ->
  afterDeletes (EC2Client a) pre s = Some s1 ->
  ec2_DeleteSnapshot (EC2Client a)
    (DeleteSnapshotInput.mk (Some false) (Some sn)) s1 = ((out', Some e), s2) ->
  fst (PurgeImage a image w) = Ok ("Failed to delete snapshot", Some e) /\
  cloud (snd (PurgeImage a image w)) = s2 /\
  api_calls (emitted w (snd (PurgeImage a image w)))
    = deregisterCall id :: map deleteCall (pre ++ [sn]).
Proof.
  intros Hd Hroot Hid Hids Hdereg Hpre Hfail.
  apply (snapshotIdsOf_names (Image.BlockDeviceMappings image)) in Hids.
  unfold PurgeImage. rewrite Hd, Hroot, Hid, Hids. run.
  rewrite Hdereg. simpl.
  rewrite (deleteSnapshots_fails a pre sn post _ _ s1 out' e s2 Hd)
    by (simpl; assumption).
  simpl.
  rewrite <- !app_assoc, emitted_app. repeat split.
  simpl. unfold deregisterCall. f_equal.
  clear. induction (pre ++ [sn])%list; simpl; auto.
  unfold deleteCall at 1. f_equal. auto.
Qed.

Lemma deleteSnapshots_events a ids after w (P : Event -> Prop) :
  (forall w', snd (after w') = w') ->
  (forall lvl msg fields, P (Log lvl msg fields)) ->
  (forall id, In id ids -> P (deleteCall id)) ->
  exists l,
    trace (snd (deleteSnapshots a ids after w)) = (trace w ++ l)%list /\ Forall P l.
Proof.
  intros Hafter Hlog. revert w. induction ids as [|id rest IH]; intros w Hids; simpl.
  - exists []. rewrite Hafter, app_nil_r. auto.
  - destruct (Delete a) eqn:Hd; run.
    + destruct (ec2_DeleteSnapshot _ _ _) as [[o [e|]] c]; simpl.
      * exists [deleting id; deleteCall id]. rewrite <- app_assoc.
        split; [reflexivity|].
        repeat constructor; [apply Hlog | apply Hids; left; reflexivity].
      * match goal with
        | |- context [deleteSnapshots a rest after ?w0] =>
            destruct (IH w0) as (l & Hl & HP);
              [intros i Hi; apply Hids; right; exact Hi|]
        end.
        exists (deleting id :: deleteCall id :: l). rewrite Hl. simpl.
        rewrite <- !app_assoc. split; [reflexivity|].
        repeat constructor; [apply Hlog | apply Hids; left; reflexivity | exact HP].
    + match goal with
      | |- context [deleteSnapshots a rest after ?w0] =>
          destruct (IH w0) as (l & Hl & HP);
            [intros i Hi; apply Hids; right; exact Hi|]
      end.
      exists (wouldDelete id :: l). rewrite Hl. simpl.
      rewrite <- !app_assoc. split; [reflexivity|].
      constructor; [apply Hlog | exact HP].
Qed.

Lemma emitted_of_app w w' l :
  trace w' = (trace w ++ l)%list -> emitted w w' = l.
Proof.
  intros H. destruct w' as [c t]. simpl in H. subst t. apply emitted_app.
Qed.

(** X18: whatever the image and the flags, PurgeImage touches nothing but its
    image: every call it makes deregisters that image or deletes a snapshot
    one of the image's block device mappings names, and none is sent as a dry
    run. *)
Theorem PurgeImage_only_own a image w :
  Forall (own_event image) (emitted w (snd (PurgeImage a image w))).
Proof.
  unfold PurgeImage.
  destruct (Image.RootDeviceType image) as [root|]; run;
    [| rewrite emitted_refl; constructor].
  destruct (String.eqb root "ebs"); simpl.
  2:{ destruct (Image.ImageId image) as [id|]; simpl;
        [rewrite emitted_app; repeat constructor | rewrite emitted_refl; constructor]. }
  destruct (snapshotIdsOf (Image.BlockDeviceMappings image)) as [ids|] eqn:Hids;
    simpl; [| rewrite emitted_refl; constructor].
  apply snapshotIdsOf_names in Hids.
  assert (Hown : forall sn, In sn ids -> own_event image (deleteCall sn)).
  { intros sn Hin. simpl.
    assert (Hsome : In (Some sn) (map snapshotOf (Image.BlockDeviceMappings image)))
      by (rewrite Hids; apply in_map; exact Hin).
    apply in_map_iff in Hsome as (m & Hm & Hmin). eauto. }
  destruct (Image.ImageId image) as [id|] eqn:Hid; simpl;
    [| rewrite emitted_refl; constructor].
  assert (Hfin : forall w', snd ((fun w1 : World W => (Ok (id, @None string), w1)) w') = w')
    by reflexivity.
  destruct (Delete a) eqn:Hd; simpl.
  - destruct (ec2_DeregisterImage _ _ _) as [[o [e|]] c]; simpl.
    + rewrite emitted_app2. repeat constructor. simpl. eauto.
    + match goal with
      | |- context [deleteSnapshots a ids ?k ?w0] =>
          destruct (deleteSnapshots_events a ids k w0 (own_event image) Hfin
                      (fun _ _ _ => I) Hown) as (l & Hl & HP)
      end.
      match goal with
      | |- Forall _ (emitted w ?w1) =>
          assert (He : emitted w w1 = deregistering id :: deregisterCall id :: l)
            by (apply emitted_of_app; rewrite Hl; simpl;
                rewrite <- !app_assoc; reflexivity)
      end.
      rewrite He. repeat constructor; [simpl; eauto | exact HP].
  - match goal with
    | |- context [deleteSnapshots a ids ?k ?w0] =>
        destruct (deleteSnapshots_events a ids k w0 (own_event image) Hfin
                    (fun _ _ _ => I) Hown) as (l & Hl & HP)
    end.
    match goal with
    | |- Forall _ (emitted w ?w1) =>
        assert (He : emitted w w1 = wouldDeregister id :: l)
          by (apply emitted_of_app; rewrite Hl; simpl;
              rewrite <- !app_assoc; reflexivity)
    end.
    rewrite He. repeat constructor. exact HP.
Qed.

Lemma deleteSnapshots_result a ids after w s err :
  (forall w' s' err', fst (after w') = Ok (s', err') -> err' = None) ->
  fst (deleteSnapshots a ids after w) = Ok (s, err) ->
  err = None \/ (Delete a = true /\ s = "Failed to delete snapshot").
Proof.
  intros Hafter. revert w. induction ids as [|id rest IH]; intros w; simpl.
  - intros H. left. eapply Hafter. exact H.
  - destruct (Delete a) eqn:Hd; run.
    + destruct (ec2_DeleteSnapshot _ _ _) as [[o [e|]] c]; simpl.
      * intros [= <- <-]. right. auto.
      * apply IH.
    + intros H. apply IH in H. destruct H as [H | [H _]]; [left; exact H | discriminate].
Qed.

(** X19: what PurgeImage returns: with a nil error the string is the image's ID;
    an error comes only with the Delete flag set, and then the string is one
    of the two failure messages, never the ID of a purged image. *)
Theorem PurgeImage_result a image w :
  match fst (PurgeImage a image w) with
  | Ok (s, None) => Image.ImageId image = Some s
  | Ok (s, Some _) =>
      Delete a = true /\
      (s = "Failed to deregister image" \/ s = "Failed to delete snapshot")
  | Panic => True
  end.
Proof.
  unfold PurgeImage.
  destruct (Image.RootDeviceType image) as [root|]; run; auto.
  destruct (String.eqb root "ebs"); simpl.
  2:{ destruct (Image.ImageId image) as [id|]; simpl; auto. }
  destruct (snapshotIdsOf (Image.BlockDeviceMappings image)) as [ids|]; simpl; auto.
  destruct (Image.ImageId image) as [id|] eqn:Hid; simpl; auto.
  assert (Hfin : forall (w' : World W) s' err',
            fst ((fun w1 : World W => (Ok (id, @None string), w1)) w') = Ok (s', err') ->
            err' = None)
    by (intros w' s' err' [= _ <-]; reflexivity).
  assert (Hdel : forall w0,
            match fst (deleteSnapshots a ids (fun w1 => (Ok (id, None), w1)) w0) with
            | Ok (s, None) => Some id = Some s
            | Ok (s, Some _) =>
                Delete a = true /\
                (s = "Failed to deregister image" \/ s = "Failed to delete snapshot")
            | Panic => True
            end).
  { intros w0.
    destruct (fst (deleteSnapshots a ids (fun w1 => (Ok (id, None), w1)) w0))
      as [[s [e|]]|] eqn:Hr; auto.
    - apply deleteSnapshots_result in Hr; [|exact Hfin].
      destruct Hr as [H | [Hd Hs]]; [discriminate | auto].
    - clear Hfin. revert w0 Hr. induction ids as [|sn rest IH]; intros w0; simpl.
      + intros [= <-]. reflexivity.
      + destruct (Delete a); run.
        * destruct (ec2_DeleteSnapshot _ _ _) as [[o [e|]] c]; simpl;
            [discriminate | apply IH].
        * apply IH. }
  destruct (Delete a) eqn:Hd; simpl.
  - destruct (ec2_DeregisterImage _ _ _) as [[o [e|]] c]; simpl; [auto | apply Hdel].
  - apply Hdel.
Qed.

End Coverage.

(** * The further properties on the sample account *)

(** The old image carries Owner before Branch; Branch decides. *)
Lemma matchTags_first_with_key_witness :
  matchTags Sample.oldImage (Sample.branch "master")
  = Ok (false, Sample.branch "feature").
Proof.
  apply (matchTags_first_with_key Sample.oldImage (Sample.branch "master")
           "Branch" "master" [Tag.mk (Some "Owner") (Some "ci")]
           (Sample.branch "feature") "feature" []); try reflexivity.
  repeat constructor. exists "Owner". split; [reflexivity | discriminate].
Defined.

Lemma matchTags_key_absent_witness :
  matchTags untaggedImage (Sample.branch "feature")
  = Ok (false, Tag.mk (Some "Branch") (Some "not found")).
Proof.
  apply (matchTags_key_absent untaggedImage (Sample.branch "feature") "Branch");
    [reflexivity |].
  repeat constructor. exists "Owner". split; [reflexivity | discriminate].
Defined.

Lemma matchTags_true_sound_witness :
  In (Sample.branch "feature") (Image.Tags Sample.oldImage) /\
  exists k v,
    Tag.Key (Sample.branch "feature") = Some k /\
    Tag.Value (Sample.branch "feature") = Some v /\
    Tag.Key (Sample.branch "feature") = Some k /\
    Tag.Value (Sample.branch "feature") = Some v.
Proof.
  apply (matchTags_true_sound Sample.oldImage (Sample.branch "feature")
           (Sample.branch "feature")).
  reflexivity.
Defined.

Lemma matchTags_no_panic_witness :
  exists m t, matchTags Sample.oldImage (Sample.branch "feature") = Ok (m, t).
Proof.
  apply (matchTags_no_panic Sample.oldImage (Sample.branch "feature")).
  - split; discriminate.
  - repeat constructor; discriminate.
Defined.

(** The query of a failing client. *)
Lemma CheckUnused_answers_witness :
  fst (CheckUnused (Sample.broken false false true) Sample.oldImage Sample.world)
  = Ok (false, Some "RequestError").
Proof.
  destruct (CheckUnused_answers Account.t (Sample.broken false false true)
              Sample.oldImage Sample.world None (Some "RequestError")
              Sample.account eq_refl) as (_ & Herr & _).
  apply Herr. reflexivity.
Defined.

(** The old image is too new for an expiration date at the zero time. *)
Lemma CheckImage_rejects_early_witness :
  CheckImage Clock.lib
    (withExpiration zeroTime (Sample.cleaner false false true))
    Sample.oldImage Sample.world
  = (Ok false, Sample.world).
Proof.
  apply (CheckImage_rejects_early Account.t Clock.lib _ _ _ "app-build-17");
    [reflexivity |].
  right. exists "2019-03-01T10:20:30.000Z". split; reflexivity.
Defined.

Lemma CheckImage_expiration_mono_witness :
  fst (CheckImage Clock.lib
         (withExpiration (Sample.expiration + 1)%Z (Sample.cleaner false false true))
         Sample.oldImage Sample.world)
  = Ok true.
Proof.
  apply (CheckImage_expiration_mono Account.t Clock.lib
           (Sample.cleaner false false true) Sample.oldImage Sample.world).
  - apply Z.leb_le. reflexivity.
  - reflexivity.
Defined.

Lemma CheckImage_at_expiration_witness :
  fst (time_Parse Clock.lib RFC8601 "2019-06-01T00:00:00.000Z") = Sample.expiration /\
  fst (CheckImage Clock.lib (Sample.cleaner false false true) borderImage Sample.world)
  = Ok true.
Proof.
  split; [reflexivity |].
  apply (CheckImage_at_expiration Account.t Clock.lib
           (Sample.cleaner false false true) borderImage Sample.world
           "ami-0006" "Branch" "2019-06-01T00:00:00.000Z"); try reflexivity.
  - exists "app-build-20". split; reflexivity.
  - intros _. reflexivity.
  - exists true, (Sample.branch "feature"). split; [reflexivity | discriminate].
Defined.

Lemma CheckImage_unused_mono_witness :
  fst (CheckImage Clock.lib (withUnused false (Sample.cleaner false false false))
         Sample.oldImage Sample.world)
  = Ok true.
Proof.
  apply (CheckImage_unused_mono Account.t Clock.lib
           (Sample.cleaner false false false) Sample.oldImage Sample.world).
  reflexivity.
Defined.

Lemma CheckImage_invert_key_absent_witness :
  CheckImage Clock.lib (Sample.cleaner false true false) untaggedImage Sample.world
  = (Ok true,
     mkWorld Sample.account
       [selectionLine "ami-0007" "app-build-21" "Branch" "not found"
          (Time_String Clock.lib
             (fst (time_Parse Clock.lib RFC8601 "2019-01-01T00:00:00.000Z")))]).
Proof.
  apply (CheckImage_invert_key_absent Account.t Clock.lib
           (Sample.cleaner false true false) untaggedImage Sample.world
           "ami-0007" "app-build-21" "2019-01-01T00:00:00.000Z" "Branch");
    try reflexivity.
  repeat constructor. exists "Owner". split; [reflexivity | discriminate].
Defined.

(** Dry run on the image with an instance-store volume: nothing is asked of
    the cloud, although the function dereferences nil. *)
Lemma PurgeImage_dry_run_no_calls_witness :
  let r := PurgeImage (Sample.cleaner false false false)
             Sample.ephemeralImage Sample.world in
  api_calls (emitted Sample.world (snd r)) = [] /\ cloud (snd r) = Sample.account.
Proof.
  apply (PurgeImage_dry_run_no_calls Account.t (Sample.cleaner false false false)
           Sample.ephemeralImage Sample.world).
  reflexivity.
Defined.

Lemma PurgeImage_dry_run_reports_witness :
  PurgeImage (Sample.cleaner false false false) Sample.oldImage Sample.world
  = (Ok ("ami-0001", None),
     mkWorld Sample.account
       [wouldDeregister "ami-0001"; wouldDelete "snap-a"; wouldDelete "snap-b"]).
Proof.
  apply (PurgeImage_dry_run_reports Account.t (Sample.cleaner false false false)
           Sample.oldImage Sample.world "ami-0001" ["snap-a"; "snap-b"]);
    reflexivity.
Defined.

Lemma PurgeImage_delete_ok_witness :
  let r := PurgeImage (Sample.cleaner true false false) Sample.oldImage Sample.world in
  fst r = Ok ("ami-0001", None) /\
  Account.snapshots (cloud (snd r)) = ["snap-c"; "snap-d"] /\
  api_calls (emitted Sample.world (snd r))
    = [deregisterCall "ami-0001"; deleteCall "snap-a"; deleteCall "snap-b"].
Proof.
  edestruct (PurgeImage_delete_ok Account.t (Sample.cleaner true false false)
               Sample.oldImage Sample.world "ami-0001" ["snap-a"; "snap-b"])
    as (Hres & Hcloud & Hcalls); try reflexivity.
  cbv zeta. rewrite Hres, Hcloud, Hcalls. repeat split.
Defined.

Lemma PurgeImage_deregister_fails_witness :
  PurgeImage (Sample.broken true false false) Sample.oldImage Sample.world
  = (Ok ("Failed to deregister image", Some "RequestError"),
     mkWorld Sample.account [deregistering "ami-0001"; deregisterCall "ami-0001"]).
Proof.
  apply (PurgeImage_deregister_fails Account.t (Sample.broken true false false)
           Sample.oldImage Sample.world "ami-0001" ["snap-a"; "snap-b"] None);
    reflexivity.
Defined.

(** The second snapshot of the old image is gone from the account: the image
    is deregistered, the first snapshot deleted, and the purge fails. *)
Lemma PurgeImage_delete_fails_witness :
  let r := PurgeImage (Sample.cleaner true false false) Sample.oldImage depleted in
  fst r = Ok ("Failed to delete snapshot", Some "InvalidSnapshot.NotFound") /\
  Account.snapshots (cloud (snd r)) = ["snap-c"; "snap-d"] /\
  api_calls (emitted depleted (snd r))
    = [deregisterCall "ami-0001"; deleteCall "snap-a"; deleteCall "snap-b"].
Proof.
  edestruct (PurgeImage_delete_fails Account.t (Sample.cleaner true false false)
               Sample.oldImage depleted "ami-0001" ["snap-a"] "snap-b" [])
    as (Hres & Hcloud & Hcalls); try reflexivity.
  cbv zeta. rewrite Hres, Hcloud, Hcalls. repeat split.
Defined.
